(** * Event reconciliation and summary metrics of [serial_logger.py]

    A shallow embedding of the analysis core of the scheduler-trace
    logger: [build_task_execution_lists] (per-task pairing of START and
    RELEASE events with COMPLETE events), [analyze_from_lists] (summary
    row per task) and [watchdog_interval] (mean watchdog period); and of
    what surrounds it: [parse_log] (the line pattern and the rows it
    yields), the comparison summary of the script, and the data that
    [plot_distribution] draws.

    Python integers are unbounded and are modelled by [Z]; lengths are
    [nat].  A [DataFrame] is the list of its rows in index order.  The
    dictionaries returned by the reconciler are association lists, since
    the summary iterates over them in insertion order.  Python and NumPy
    floats are IEEE 754 binary64 values with round-to-nearest-even
    arithmetic; exceptions are the [Raise] results of [Result].  The
    warnings issued by [warnings.warn] are collected in a list. *)

From Stdlib Require Import ZArith Lia Ascii.
From Stdlib Require SpecFloat.
From stdpp Require Import base decidable numbers list sorting strings gmap.

#[global] Set Warnings "-clear-no-such-hyp".

(** ** Events and frames *)

Inductive EventKind := START | COMPLETE | RELEASE | MISS | WDT_PET | INFO.

#[global] Instance EventKind_eq_dec : EqDecision EventKind.
Proof. solve_decision. Defined.

(** One row of the frame built by [parse_log]: the four capture groups of
    the line pattern, the first converted with [int]. *)
Record LogRow := mkLogRow {
  time_ms : Z;
  event : EventKind;
  task : string;
  extra : string
}.

Definition DataFrame := list LogRow.

(** [df[df.task == t]] and [df[df.event == k]]: boolean-mask selection
    keeps the selected rows in index order. *)
Definition where_task (t : string) (df : DataFrame) : DataFrame :=
  filter (λ r, task r = t) df.

Definition where_event (k : EventKind) (df : DataFrame) : DataFrame :=
  filter (λ r, event r = k) df.

(** [df.sort_values('time_ms')].  Only the [time_ms] column of the sorted
    frame is read afterwards, one event kind at a time, so the order
    chosen among rows of equal [time_ms] has no effect on what follows. *)
Definition time_le (a b : LogRow) : Prop := (time_ms a ≤ time_ms b)%Z.

#[global] Instance time_le_dec : RelDecision time_le.
Proof. intros a b. unfold time_le. apply _. Defined.

Definition sort_values (df : DataFrame) : DataFrame := merge_sort time_le df.

(** [df['task'].unique()]: distinct values in order of first appearance. *)
Definition unique (l : list string) : list string :=
  reverse (remove_dups (reverse l)).

(** ** Dictionaries with insertion order *)

Definition dict (V : Type) := list (string * V).

Fixpoint dict_set {V} (k : string) (v : V) (m : dict V) : dict V :=
  match m with
  | [] => [(k, v)]
  | (k', v') :: m' =>
      if decide (k = k') then (k, v) :: m' else (k', v') :: dict_set k v m'
  end.

Fixpoint dict_get {V} (k : string) (m : dict V) (dflt : V) : V :=
  match m with
  | [] => dflt
  | (k', v') :: m' => if decide (k = k') then v' else dict_get k m' dflt
  end.

Definition dict_keys {V} (m : dict V) : list string := m.*1.

(** ** Pairing loop of [build_task_execution_lists] *)

(** The two [warnings.warn] calls, with the values interpolated in the
    message. *)
Inductive Warning :=
  | NegativeExec (task : string) (start complete : Z)
  | NegativeResponse (task : string) (release complete : Z).

(** Loop state: the list being appended to, the set of used indices of
    [completes], and the warnings issued so far. *)
Record PairState := mkPairState {
  samples : list Z;
  used_complete_indices : gset nat;
  warned : list Warning
}.

Definition enumerate {A} (l : list A) : list (nat * A) := imap pair l.

(** [next((i for i, c in enumerate(completes)
          if c >= s and i not in used), None)] *)
Definition next_complete (completes : list Z) (s : Z) (used : gset nat)
  : option nat :=
  (λ hit, (hit.2).1) <$>
    list_find (λ p : nat * Z, (s ≤ p.2)%Z ∧ p.1 ∉ used) (enumerate completes).

(** Body of [if idx is not None:], with [c = completes[idx]]. *)
Definition record_sample (warn : Z → Z → Warning) (st : PairState)
    (s : Z) (idx : nat) (c : Z) : PairState :=
  let dur := (c - s)%Z in
  if bool_decide (0 ≤ dur)%Z then
    {| samples := samples st ++ [dur];
       used_complete_indices := used_complete_indices st ∪ {[ idx ]};
       warned := warned st |}
  else
    {| samples := samples st;
       used_complete_indices := used_complete_indices st ∪ {[ idx ]};
       warned := warned st ++ [warn s c] |}.

(** One iteration of [for s in starts:] (and of [for r in releases:]). *)
Definition pair_step (warn : Z → Z → Warning) (completes : list Z)
    (st : PairState) (s : Z) : PairState :=
  match next_complete completes s (used_complete_indices st) with
  | Some idx => record_sample warn st s idx (completes !!! idx)
  | None => st
  end.

Definition pair_init : PairState :=
  {| samples := []; used_complete_indices := ∅; warned := [] |}.

Definition pair_loop (warn : Z → Z → Warning) (completes points : list Z)
  : PairState :=
  foldl (pair_step warn completes) pair_init points.

(** ** [build_task_execution_lists] *)

Definition infrastructure : list string := ["WDT"; "INFO"; "Supervisor"].

Definition task_names (df : DataFrame) : list string :=
  filter (λ t, t ∉ infrastructure) (unique (task <$> df)).

Definition times_of (k : EventKind) (dft : DataFrame) : list Z :=
  time_ms <$> where_event k dft.

Record Lists := mkLists {
  exec_map : dict (list Z);
  resp_map : dict (list Z);
  releases_map : dict (list Z);
  warnings : list Warning
}.

(** Body of [for task in tasks:]. *)
Definition build_task (df : DataFrame) (acc : Lists) (t : string) : Lists :=
  let dft := sort_values (where_task t df) in
  let starts := times_of START dft in
  let completes := times_of COMPLETE dft in
  let releases := times_of RELEASE dft in
  let e := pair_loop (NegativeExec t) completes starts in
  let r := pair_loop (NegativeResponse t) completes releases in
  {| exec_map := dict_set t (samples e) (exec_map acc);
     resp_map := dict_set t (samples r) (resp_map acc);
     releases_map := dict_set t releases (releases_map acc);
     warnings := warnings acc ++ warned e ++ warned r |}.

Definition build_task_execution_lists (df : DataFrame) : Lists :=
  foldl (build_task df)
        {| exec_map := []; resp_map := []; releases_map := []; warnings := [] |}
        (task_names df).

(** The per-task lists read back from the frame, as the loop body
    computes them. *)
Definition starts_of (df : DataFrame) (t : string) : list Z :=
  times_of START (sort_values (where_task t df)).
Definition completes_of (df : DataFrame) (t : string) : list Z :=
  times_of COMPLETE (sort_values (where_task t df)).
Definition releases_of (df : DataFrame) (t : string) : list Z :=
  times_of RELEASE (sort_values (where_task t df)).

Definition ev (t : Z) (k : EventKind) (n : string) : LogRow :=
  {| time_ms := t; event := k; task := n; extra := "" |}.


(** ** Exceptions *)

Inductive Exn := ZeroDivisionError | OverflowError | KeyError.

Inductive Result (A : Type) := Ok (a : A) | Raise (e : Exn).
Arguments Ok {A} a.
Arguments Raise {A} e.

#[global] Instance Result_ret : MRet Result := λ A a, Ok a.

#[global] Instance Result_bind : MBind Result := λ A B f m,
  match m with Ok a => f a | Raise e => Raise e end.

#[global] Instance Result_fmap : FMap Result := λ A B f m,
  match m with Ok a => Ok (f a) | Raise e => Raise e end.

(** ** Floats (IEEE 754 binary64)

    Every finite double is an integer multiple of [2^-1074], the least
    subnormal.  [Finite k] is the double of value [k * 2^-1074]; equality
    of doubles is then equality of integers.  The sign of a zero is not
    tracked ([-0.0 == 0.0] in Python). *)

Inductive float := Finite (k : Z) | Infinity (negative : bool) | NaN.

#[global] Instance float_eq_dec : EqDecision float.
Proof. solve_decision. Defined.

Section Binary64.
Local Open Scope Z_scope.

(** [1.0], in units of [2^-1074]. *)
Definition one_units : Z := 2 ^ 1074.

(** [2^1024], the least magnitude that rounds to infinity, in units. *)
Definition overflow_units : Z := 2 ^ 2098.

(** The integer nearest to [n / d], ties to the even one ([0 < d]). *)
Definition div_half_even (n d : Z) : Z :=
  let q := n / d in
  let r := n mod d in
  if 2 * r <? d then q
  else if d <? 2 * r then q + 1
  else if Z.even q then q else q + 1.

(** Round to nearest, ties to even, with 53 significant bits: the
    multiple of the unit in the last place nearest to [n / d] units
    ([0 ≤ n], [0 < d]).  Magnitudes below [2^53] units, which covers the
    subnormals, have unit in the last place [1]; each further binade
    doubles it. *)
Definition nearest (n d : Z) : Z :=
  let s := Z.max 0 (Z.log2 (n / d) - 52) in
  div_half_even n (d * 2 ^ s) * 2 ^ s.

(** The double nearest to [n / d] units, for [0 < d]. *)
Definition round_units (n d : Z) : float :=
  let k := Z.sgn n * nearest (Z.abs n) d in
  if overflow_units <=? Z.abs k then Infinity (n <? 0) else Finite k.

(** [float(z)], and the conversion of an integer to [float64]. *)
Definition of_int (z : Z) : float := round_units (z * one_units) 1.

(** [a / b] on Python integers: the double nearest to the exact
    quotient; [OverflowError] when that is beyond the finite doubles. *)
Definition int_truediv (a b : Z) : Result float :=
  if b =? 0 then Raise ZeroDivisionError
  else match round_units (Z.sgn b * a * one_units) (Z.abs b) with
       | Finite k => Ok (Finite k)
       | _ => Raise OverflowError
       end.

(** [round(x, ndigits)] on a Python float, [0 ≤ ndigits]: the exact value
    is rounded half-even to [ndigits] decimals and the double nearest to
    that decimal is returned. *)
Definition py_round (x : float) (ndigits : nat) : float :=
  match x with
  | Finite k =>
      let p := 10 ^ Z.of_nat ndigits in
      round_units (div_half_even (k * p) one_units * one_units) p
  | _ => x
  end.

(** [round(n, ndigits)] on a Python integer, [0 ≤ ndigits], is [n]. *)
Definition int_round (n : Z) (ndigits : nat) : Z := n.

(** [float64] addition, multiplication, division and [rint]. *)
Definition fadd (x y : float) : float :=
  match x, y with
  | NaN, _ | _, NaN => NaN
  | Infinity a, Infinity b => if bool_decide (a = b) then Infinity a else NaN
  | Infinity a, Finite _ | Finite _, Infinity a => Infinity a
  | Finite a, Finite b => round_units (a + b) 1
  end.

Definition fmul (x y : float) : float :=
  match x, y with
  | NaN, _ | _, NaN => NaN
  | Infinity a, Infinity b => Infinity (xorb a b)
  | Infinity a, Finite k | Finite k, Infinity a =>
      if k =? 0 then NaN else Infinity (xorb a (k <? 0))
  | Finite a, Finite b => round_units (a * b) one_units
  end.

Definition fdiv (x y : float) : float :=
  match x, y with
  | NaN, _ | _, NaN => NaN
  | Infinity _, Infinity _ => NaN
  | Infinity a, Finite k => Infinity (xorb a (k <? 0))
  | Finite _, Infinity _ => Finite 0
  | Finite a, Finite b =>
      if b =? 0 then (if a =? 0 then NaN else Infinity (a <? 0))
      else round_units (Z.sgn b * a * one_units) (Z.abs b)
  end.

Definition rint (x : float) : float :=
  match x with
  | Finite k => Finite (div_half_even k one_units * one_units)
  | _ => x
  end.

(** [round(x, ndigits)] on a [numpy.float64], [0 < ndigits]: NumPy
    multiplies by the power of ten, rounds to an integer with [rint] and
    divides by the power of ten, each step in [float64]. *)
Definition np_round (x : float) (ndigits : nat) : float :=
  let p := of_int (10 ^ Z.of_nat ndigits) in
  fdiv (rint (fmul x p)) p.

(** Order on floats; nothing compares with [NaN]. *)
Definition float_le (x y : float) : Prop :=
  match x, y with
  | NaN, _ | _, NaN => False
  | Infinity a, Infinity b => b = true → a = true
  | Infinity a, Finite _ => a = true
  | Finite _, Infinity b => b = false
  | Finite a, Finite b => a ≤ b
  end.

(** The double denoted by a [spec_float] of the Standard Library, and the
    library's binary64 operations, against which the operations above
    are checked on sample arguments. *)
Definition of_spec_float (x : SpecFloat.spec_float) : float :=
  match x with
  | SpecFloat.S754_zero _ => Finite 0
  | SpecFloat.S754_infinity s => Infinity s
  | SpecFloat.S754_nan => NaN
  | SpecFloat.S754_finite s m e =>
      Finite ((if s then -1 else 1) * (Z.pos m * 2 ^ (e + 1074)))
  end.

Definition SF64_of_int (z : Z) : SpecFloat.spec_float :=
  SpecFloat.binary_normalize 53 1024 z 0 false.
Definition SF64_add := SpecFloat.SFadd 53 1024.
Definition SF64_mul := SpecFloat.SFmul 53 1024.
Definition SF64_div := SpecFloat.SFdiv 53 1024.

Definition agree (x : SpecFloat.spec_float) (y : float) : bool :=
  bool_decide (of_spec_float x = y).

Definition sample_ints : list Z :=
  [0; 1; -7; 100; 525; 2 ^ 53 - 1; 2 ^ 53 + 1; 2 ^ 53 + 3; 10 ^ 30;
   - (2 ^ 70 + 12345); 2 ^ 1024 - 2 ^ 970 - 1; 2 ^ 1024 - 2 ^ 970].

Definition sample_pairs : list (Z * Z) :=
  [(1, 3); (1, 10); (2, 3); (-1, 3); (1, -3); (2675, 1000); (107, 40);
   (1, 2000); (1, 2 ^ 60); (2 ^ 53 + 1, 3); (1050, 2); (2, 1); (0, 4);
   (10 ^ 30, 7); (2 ^ 1023, 3)].

(** The pairs above whose members are doubles themselves. *)
Definition sample_exact_pairs : list (Z * Z) :=
  [(1, 3); (1, 10); (2, 3); (-1, 3); (1, -3); (2675, 1000); (107, 40);
   (1, 2000); (1, 2 ^ 60); (1050, 2); (2, 1); (0, 4); (2 ^ 1023, 3)].

Definition sample_few_pairs : list (Z * Z) :=
  [(1, 3); (-1, 3); (2675, 1000); (1, 2 ^ 60); (10 ^ 30, 7)].

End Binary64.

(** ** Series operations used by [watchdog_interval] *)

(** How pandas stores a column built from Python integers: as [int64]
    when every entry fits, as [uint64] when no entry is negative and
    every entry is below [2^64], and as Python objects otherwise, as it
    does for the columns of a frame without rows.  The arithmetic of an
    object column is not modelled: [column_dtype] is [None] for it. *)
Inductive IntDtype := Int64 | UInt64.

Definition fits_int64 (z : Z) : bool := ((- 2 ^ 63 <=? z) && (z <? 2 ^ 63))%Z.
Definition fits_uint64 (z : Z) : bool := ((0 <=? z) && (z <? 2 ^ 64))%Z.

Definition column_dtype (col : list Z) : option IntDtype :=
  match col with
  | [] => None
  | _ => if forallb fits_int64 col then Some Int64
         else if forallb fits_uint64 col then Some UInt64
         else None
  end.

(** [a - b] on two entries of the column: the difference wraps around
    in the 64 bits of the column. *)
Definition column_sub (d : IntDtype) (a b : Z) : Z :=
  match d with
  | Int64 => ((a - b + 2 ^ 63) mod 2 ^ 64 - 2 ^ 63)%Z
  | UInt64 => ((a - b) mod 2 ^ 64)%Z
  end.

(** [Series.diff()] on an integer column: the first entry is [NaN], every
    other entry is the difference with the previous one, taken in the
    integer type of the column and then stored as [float64]. *)
Fixpoint diff_from (d : IntDtype) (prev : Z) (l : list Z) : list float :=
  match l with
  | [] => []
  | t :: l' => of_int (column_sub d t prev) :: diff_from d t l'
  end.

Definition series_diff (d : IntDtype) (l : list Z) : list float :=
  match l with
  | [] => []
  | t :: l' => NaN :: diff_from d t l'
  end.

(** [Series.dropna()] *)
Definition dropna (l : list float) : list float :=
  filter (λ x, x ≠ NaN) l.

(** NumPy's sum of a [float64] array.  Fewer than 8 entries are added
    from the left to [0.0].  Up to 128 entries are added in 8 running
    sums, entry [i] into sum [i mod 8], as long as whole groups of 8
    remain; the 8 sums are added two by two, and the remaining entries
    are added to that one by one.  A longer array is cut in two, the
    first part of [n / 2] entries rounded down to a multiple of 8, and
    the sums of the parts are added. *)
Fixpoint add_groups (groups : nat) (r l : list float) : list float :=
  match groups with
  | 0 => r
  | S g => add_groups g (zip_with fadd r (take 8 l)) (drop 8 l)
  end.

Definition add_two_by_two (r : list float) : float :=
  match r with
  | [r0; r1; r2; r3; r4; r5; r6; r7] =>
      fadd (fadd (fadd r0 r1) (fadd r2 r3)) (fadd (fadd r4 r5) (fadd r6 r7))
  | _ => NaN
  end.

Definition block_sum (l : list float) : float :=
  let groups := length l `div` 8 - 1 in
  let r := add_groups groups (take 8 l) (drop 8 l) in
  foldl fadd (add_two_by_two r) (drop (8 + 8 * groups) l).

(** The recursion halves the array; [fuel] bounds its depth, and the
    length of the array is enough fuel. *)
Fixpoint pairwise_sum (fuel : nat) (l : list float) : float :=
  let n := length l in
  if bool_decide (n < 8) then foldl fadd (Finite 0) l
  else if bool_decide (n ≤ 128) then block_sum l
  else match fuel with
       | 0 => NaN
       | S fuel' =>
           let n2 := n `div` 2 - (n `div` 2) `mod` 8 in
           fadd (pairwise_sum fuel' (take n2 l)) (pairwise_sum fuel' (drop n2 l))
       end.

(** [values.sum()]: the reduction starts from [0.0] and adds the
    pairwise sum of the array to it. *)
Definition series_sum (l : list float) : float :=
  fadd (Finite 0) (pairwise_sum (length l) l).

(** [Series.mean()] with [skipna=True], the default, on [float64]: the
    entries that are [NaN] are replaced by [0.0], the array is summed,
    and the sum is divided by the number of entries that are not [NaN];
    [NaN] when there is no such entry. *)
Definition fill_nan (l : list float) : list float :=
  (λ x, match x with NaN => Finite 0 | _ => x end) <$> l.

Definition series_mean (l : list float) : float :=
  let count := length (dropna l) in
  if bool_decide (0 < count) then
    fdiv (series_sum (fill_nan l)) (of_int (Z.of_nat count))
  else NaN.

(** ** [analyze_from_lists] *)

Record Metrics := mkMetrics {
  avg_exec_time_ms : float;
  avg_response_ms : float;
  miss_ratio : float;
  total_exec_time_ms : Z;
  release_count : nat
}.

(** The built-in [sum] on integers. *)
Definition py_sum (l : list Z) : Z := foldl Z.add 0%Z l.

(** [round(sum(xs) / len(xs), 2) if xs else np.nan] *)
Definition mean_or_nan (xs : list Z) : Result float :=
  match xs with
  | [] => Ok NaN
  | _ => (λ q, py_round q 2) <$> int_truediv (py_sum xs) (Z.of_nat (length xs))
  end.

(** Body of [for task in exec_map.keys():]; the entries of the row are
    evaluated in the order in which the dictionary display lists them. *)
Definition summarize (exec_map resp_map releases_map : dict (list Z))
    (df : DataFrame) (t : string) : Result (string * Metrics) :=
  let exec_times := dict_get t exec_map [] in
  let resp_times := dict_get t resp_map [] in
  let releases := dict_get t releases_map [] in
  let dft := where_task t df in
  let misses := length (where_event MISS dft) in
  let total := if bool_decide (0 < length releases)%nat then length releases else 1%nat in
  avg_exec ← mean_or_nan exec_times;
  avg_resp ← mean_or_nan resp_times;
  ratio ← (λ q, py_round q 3) <$> int_truediv (Z.of_nat misses) (Z.of_nat total);
  Ok (t, {| avg_exec_time_ms := avg_exec;
            avg_response_ms := avg_resp;
            miss_ratio := ratio;
            total_exec_time_ms := int_round (py_sum exec_times) 2;
            release_count := length releases |}).

Fixpoint collect {A B} (f : A → Result B) (l : list A) : Result (list B) :=
  match l with
  | [] => Ok []
  | a :: l' => b ← f a; bs ← collect f l'; Ok (b :: bs)
  end.

(** The rows of the returned frame, keyed by task.  With no row at all
    the list of records has no [task] column and [set_index] raises
    [KeyError]. *)
Definition analyze_from_lists (exec_map resp_map releases_map : dict (list Z))
    (df : DataFrame) : Result (list (string * Metrics)) :=
  metrics ← collect (summarize exec_map resp_map releases_map df) (dict_keys exec_map);
  match metrics with
  | [] => Raise KeyError
  | _ => Ok metrics
  end.

(** The call sequence of the script on one trace. *)
Definition analyze (df : DataFrame) : Result (list (string * Metrics)) :=
  let lists := build_task_execution_lists df in
  analyze_from_lists (exec_map lists) (resp_map lists) (releases_map lists) df.

(** ** [watchdog_interval] *)

(** What the function returns: [None], or the rounded mean.  For a frame
    whose [time_ms] column pandas keeps as Python objects (a timestamp
    outside the 64-bit integers) and which has two WDT rows or more, the
    value is not modelled. *)
Inductive Estimate := NoInterval | Interval (x : float) | ObjectColumn.

Definition watchdog_interval (df : DataFrame) : Estimate :=
  let wd := where_task "WDT" df in
  if bool_decide (length wd < 2)%nat then NoInterval
  else
    match column_dtype (time_ms <$> df) with
    | Some dtype =>
        let intervals := dropna (series_diff dtype (time_ms <$> wd)) in
        Interval (np_round (series_mean intervals) 2)
    | None => ObjectColumn
    end.

(** ** First-fit matching, as the specification words it *)

(** The COMPLETE at index [j] is not yet consumed and its timestamp is at
    least [s]. *)
Definition eligible (completes : list Z) (used : gset nat) (s : Z) (j : nat)
  : Prop :=
  ∃ c, completes !! j = Some c ∧ (s ≤ c)%Z ∧ j ∉ used.

(** [first_fit completes used points m]: taking the [points] in order and
    starting with the consumed set [used], [m] lists each point that finds
    a COMPLETE together with the index of the one it consumes, the lowest
    eligible index; a point with no eligible index is left out. *)
Inductive first_fit (completes : list Z)
  : gset nat → list Z → list (Z * nat) → Prop :=
  | first_fit_done used :
      first_fit completes used [] []
  | first_fit_pair used s points idx m :
      eligible completes used s idx →
      (∀ j, j < idx → ¬ eligible completes used s j) →
      first_fit completes (used ∪ {[ idx ]}) points m →
      first_fit completes used (s :: points) ((s, idx) :: m)
  | first_fit_drop used s points m :
      (∀ j, ¬ eligible completes used s j) →
      first_fit completes used points m →
      first_fit completes used (s :: points) m.

(** The duration of each pair of a matching: complete minus start. *)
Definition durations (completes : list Z) (m : list (Z * nat)) : list Z :=
  (λ p, (completes !!! p.2 - p.1)%Z) <$> m.

(** The samples the loop body of [build_task_execution_lists] stores for
    task [t]. *)
Definition execs_of (df : DataFrame) (t : string) : list Z :=
  samples (pair_loop (NegativeExec t) (completes_of df t) (starts_of df t)).

Definition resps_of (df : DataFrame) (t : string) : list Z :=
  samples (pair_loop (NegativeResponse t) (completes_of df t) (releases_of df t)).



(** The sum of a list of integers, as the specification means it. *)
Definition exact_sum (l : list Z) : Z := foldr Z.add 0%Z l.

(** [sums l x]: float additions, in some order and grouping, of the
    entries of [l], each taken once, and of any number of [0.0], give
    [x]. *)
Inductive sums : list float → float → Prop :=
  | sums_nil : sums [] (Finite 0)
  | sums_one x : sums [x] x
  | sums_add l1 l2 x y : sums l1 x → sums l2 y → sums (l1 ++ l2) (fadd x y)
  | sums_perm l l' x : l ≡ₚ l' → sums l x → sums l' x.





(** The closed interval from [0.0] to [1.0]. *)
Definition in_unit_interval (x : float) : Prop :=
  float_le (of_int 0) x ∧ float_le x (of_int 1).

(** The number of MISS rows of a task. *)
Definition miss_count (df : DataFrame) (t : string) : nat :=
  length (where_event MISS (where_task t df)).

(** ** Scenarios *)

Definition scenario_out_of_order : DataFrame :=
  [ev 10 START "T1"; ev 40 COMPLETE "T1"; ev 50 START "T1"; ev 45 COMPLETE "T1"].

Definition scenario_two_releases : DataFrame :=
  [ev 0 RELEASE "T1"; ev 100 RELEASE "T1"; ev 50 COMPLETE "T1"; ev 150 COMPLETE "T1"].

Definition scenario_shared_complete : DataFrame :=
  [ev 0 RELEASE "T1"; ev 10 START "T1"; ev 40 COMPLETE "T1"].

Definition scenario_two_misses : DataFrame :=
  [ev 5 MISS "T1"; ev 9 MISS "T1"].

Definition scenario_four_releases : DataFrame :=
  [ev 0 RELEASE "T1"; ev 100 RELEASE "T1"; ev 200 RELEASE "T1"; ev 300 RELEASE "T1"].

Definition scenario_more_misses : DataFrame :=
  [ev 0 RELEASE "T1"; ev 10 MISS "T1"; ev 20 MISS "T1"].

Definition scenario_one_miss : DataFrame :=
  [ev 0 RELEASE "T1"; ev 10 MISS "T1"; ev 100 RELEASE "T1"].







(** Two watchdog rows in a [uint64] column, the later one first. *)
Definition scenario_uint64_pets : DataFrame :=
  [ev (2 ^ 63 + 10) WDT_PET "WDT"; ev (2 ^ 63) WDT_PET "WDT"].

(** Nine ascending watchdog rows, the first [2^53] ms before the rest. *)
Definition scenario_nine_pets : DataFrame :=
  (λ t, ev t WDT_PET "WDT") <$>
    (0 :: ((λ i, 2 ^ 53 + Z.of_nat i) <$> seq 0 8))%Z.

Definition scenario_mixed : DataFrame :=
  [ev 0 RELEASE "T1"; ev 5 WDT_PET "WDT"; ev 10 START "T1"; ev 20 INFO "INFO";
   ev 30 START "Supervisor"; ev 40 COMPLETE "T1"; ev 50 COMPLETE "Supervisor"].

(** ** Further scenarios *)

Definition scenario_clean_trace : DataFrame :=
  [ev 10 START "T1"; ev 40 COMPLETE "T1"; ev 50 START "T1"; ev 90 COMPLETE "T1";
   ev 120 COMPLETE "T1"].

(** The rows that can enter the responses of a task, and those that can
    enter its executions. *)
Definition response_rows (df : DataFrame) : DataFrame :=
  filter (λ r, event r = RELEASE ∨ event r = COMPLETE) df.

Definition execution_rows (df : DataFrame) : DataFrame :=
  filter (λ r, event r = START ∨ event r = COMPLETE) df.

(** ** [parse_log]

    A line is a Python [str]; the model holds its characters as a list of
    [ascii], that is lines whose code points lie below 256.  On those,
    [\d] is the class of the ten ASCII digits. *)

Definition chars (s : string) : list ascii := String.list_ascii_of_string s.

Definition code (c : ascii) : nat := nat_of_ascii c.

Definition between (lo hi : nat) (c : ascii) : bool :=
  (lo <=? code c) && (code c <=? hi).

(** [\d] and [[A-Za-z0-9_]]. *)
Definition is_digit (c : ascii) : bool := between 48 57 c.

Definition is_word (c : ascii) : bool :=
  between 65 90 c || between 97 122 c || between 48 57 c || (code c =? 95).

(** The characters removed by [str.strip()]: the code points below 256
    that Python counts as whitespace. *)
Definition is_space (c : ascii) : bool :=
  between 9 13 c || between 28 32 c || (code c =? 133) || (code c =? 160).

Fixpoint lstrip (s : list ascii) : list ascii :=
  match s with
  | c :: s' => if is_space c then lstrip s' else s
  | [] => []
  end.

Definition rstrip (s : list ascii) : list ascii := reverse (lstrip (reverse s)).

Definition strip (s : list ascii) : list ascii := rstrip (lstrip s).

(** Regular expressions, as far as the line pattern uses them: literal
    text, a character class repeated greedily (one or more, zero or
    more), a greedy option, an ordered alternative, a sequence and a
    capturing group. *)
Inductive Regex :=
  | Lit (text : list ascii)
  | Plus (cls : ascii → bool)
  | Star (cls : ascii → bool)
  | Opt (r : Regex)
  | Alt (r1 r2 : Regex)
  | Seq (r1 r2 : Regex)
  | Group (r : Regex).

(** [eat text s] is what follows [text] at the start of [s]. *)
Fixpoint eat (text s : list ascii) : option (list ascii) :=
  match text with
  | [] => Some s
  | a :: text' =>
      match s with
      | b :: s' => if Ascii.eqb a b then eat text' s' else None
      | [] => None
      end
  end.

(** Backtracking matcher.  The continuation [k] receives the text matched
    so far by the construct, the rest of the input and the groups closed
    so far, and fails (with [None]) to make the construct try its next
    possibility.  A repeated class first takes as many characters as it
    can and gives them back one at a time. *)
Fixpoint greedy {A} (cls : ascii → bool) (s : list ascii)
    (k : list ascii → list ascii → option A) : option A :=
  match s with
  | c :: s' =>
      if cls c then
        match greedy cls s' (λ m rest, k (c :: m) rest) with
        | Some a => Some a
        | None => k [] s
        end
      else k [] s
  | [] => k [] []
  end.

Fixpoint run {A} (r : Regex) (s : list ascii) (groups : list (list ascii))
    (k : list ascii → list ascii → list (list ascii) → option A) : option A :=
  match r with
  | Lit text =>
      match eat text s with
      | Some rest => k text rest groups
      | None => None
      end
  | Plus cls =>
      match s with
      | c :: s' =>
          if cls c then greedy cls s' (λ m rest, k (c :: m) rest groups) else None
      | [] => None
      end
  | Star cls => greedy cls s (λ m rest, k m rest groups)
  | Opt r' =>
      match run r' s groups k with
      | Some a => Some a
      | None => k [] s groups
      end
  | Alt r1 r2 =>
      match run r1 s groups k with
      | Some a => Some a
      | None => run r2 s groups k
      end
  | Seq r1 r2 =>
      run r1 s groups (λ m1 rest1 groups1,
        run r2 rest1 groups1 (λ m2 rest2 groups2, k (m1 ++ m2) rest2 groups2))
  | Group r' =>
      run r' s groups (λ m rest groups', k m rest (groups' ++ [m]))
  end.

(** [pattern.search(s)]: the groups of the match at the leftmost position
    where the pattern matches. *)
Fixpoint search (r : Regex) (s : list ascii) : option (list (list ascii)) :=
  match run r s [] (λ _ _ groups, Some groups) with
  | Some groups => Some groups
  | None =>
      match s with
      | [] => None
      | _ :: s' => search r s'
      end
  end.

(** The names of the event kinds, in the order of the alternation. *)
Definition kind_name (k : EventKind) : list ascii :=
  match k with
  | START => chars "START"
  | COMPLETE => chars "COMPLETE"
  | RELEASE => chars "RELEASE"
  | MISS => chars "MISS"
  | WDT_PET => chars "WDT_PET"
  | INFO => chars "INFO"
  end.

(** The pattern of [parse_log], piece by piece: group 1 [\d+], a comma,
    group 2 [START|COMPLETE|RELEASE|MISS|WDT_PET|INFO], a comma, group 3
    [[A-Za-z0-9_]+], an optional comma, group 4 [[A-Za-z0-9_]] repeated
    zero or more times. *)
Definition line_pattern : Regex :=
  Seq (Group (Plus is_digit))
 (Seq (Lit (chars ","))
 (Seq (Group (Alt (Lit (kind_name START))
             (Alt (Lit (kind_name COMPLETE))
             (Alt (Lit (kind_name RELEASE))
             (Alt (Lit (kind_name MISS))
             (Alt (Lit (kind_name WDT_PET))
                  (Lit (kind_name INFO))))))))
 (Seq (Lit (chars ","))
 (Seq (Group (Plus is_word))
 (Seq (Opt (Lit (chars ",")))
      (Group (Star is_word))))))).

Definition kind_of_name (name : list ascii) : option EventKind :=
  snd <$> list_find (λ k, kind_name k = name)
                    [START; COMPLETE; RELEASE; MISS; WDT_PET; INFO].

(** [int(t)] on a string of ASCII digits. *)
Definition digit_value (c : ascii) : Z := (Z.of_nat (code c) - 48)%Z.

Definition int_of_digits (t : list ascii) : Z :=
  foldl (λ acc c, (10 * acc + digit_value c)%Z) 0%Z t.

(** What one line contributes: no row, one row, or the [ValueError] that
    [int] raises when the interpreter limits the number of digits it
    converts ([max_str_digits], 0 for no limit) and the timestamp has
    more. *)
Inductive LineResult := NoRow | OneRow (r : LogRow) | IntTooLong.

Definition parse_line (max_str_digits : nat) (line : list ascii) : LineResult :=
  match search line_pattern (strip line) with
  | Some [t; evt; task_name; extra_text] =>
      if (0 <? max_str_digits) && (max_str_digits <? length t) then IntTooLong
      else match kind_of_name evt with
           | Some k =>
               OneRow {| time_ms := int_of_digits t;
                         event := k;
                         task := String.string_of_list_ascii task_name;
                         extra := String.string_of_list_ascii extra_text |}
           | None => NoRow
           end
  | _ => NoRow
  end.

(** The rows of the frame, or [None] when a line raises. *)
Fixpoint parse_log (max_str_digits : nat) (lines : list (list ascii))
  : option DataFrame :=
  match lines with
  | [] => Some []
  | line :: lines' =>
      match parse_line max_str_digits line with
      | NoRow => parse_log max_str_digits lines'
      | OneRow r => cons r <$> parse_log max_str_digits lines'
      | IntTooLong => None
      end
  end.

(** A record as the logger writes it, with and without the fourth field. *)
Definition record4 (t : list ascii) (k : EventKind) (name extra_text : list ascii)
  : list ascii :=
  t ++ chars "," ++ kind_name k ++ chars "," ++ name ++ chars "," ++ extra_text.

Definition record3 (t : list ascii) (k : EventKind) (name : list ascii)
  : list ascii :=
  t ++ chars "," ++ kind_name k ++ chars "," ++ name.

(** A field ends where the input ends or a character outside
    [[A-Za-z0-9_]] follows; a record without its fourth field moreover is
    not followed by a comma. *)
Definition ends_field (post : list ascii) : Prop :=
  match post with
  | [] => True
  | c :: _ => is_word c = false
  end.

Definition ends_record (post : list ascii) : Prop :=
  match post with
  | [] => True
  | c :: _ => is_word c = false ∧ c ≠ ","%char
  end.

Definition word_text (s : string) : Prop :=
  Forall (λ c, is_word c = true) (chars s).

Definition sample_lines : list (list ascii) :=
  [chars "boot ok"; chars "  10,START,T1,run
"; chars "noise 40,COMPLETE,T1"; chars "-5,MISS,T2,late!";
   chars "x12a34,RELEASE,T_3,"; chars "7,start,T1"; chars "9,info,INFO";
   chars "12;WDT_PET;WDT"; chars "500,WDT_PET,WDT,,x";
   chars "1,START,2,START,T,x"; chars "12,STARTX,T"; chars "3,MISS,T1,4,INFO,T2";
   chars "5,INFO,,T"; chars "1,2,START,a,b"; chars "99,COMPLETE,INFO_1,,"].

Definition sample_rows : DataFrame :=
  [mkLogRow 10 START "T1" "run"; mkLogRow 40 COMPLETE "T1" "";
   mkLogRow 5 MISS "T2" "late"; mkLogRow 34 RELEASE "T_3" "";
   mkLogRow 500 WDT_PET "WDT" ""; mkLogRow 1 START "2" "START";
   mkLogRow 3 MISS "T1" "4"; mkLogRow 2 START "a" "b";
   mkLogRow 99 COMPLETE "INFO_1" ""].

(** ** The comparison summary of the script *)

(** [Series.mean(skipna=True)] on a float column. *)
Definition column_mean (col : list float) : float := series_mean col.

(** [x < y] on floats. *)
Definition float_ltb (x y : float) : bool :=
  match x, y with
  | Finite a, Finite b => (a <? b)%Z
  | Finite _, Infinity negative => negb negative
  | Infinity negative, Finite _ => negative
  | Infinity a, Infinity b => a && negb b
  | _, _ => false
  end.

(** [pd.notna(x)] and [not np.isnan(x)] on a float. *)
Definition notna (x : float) : bool := bool_decide (x ≠ NaN).

Inductive Verdict := EdfBetter | RmBetter | Unavailable.

Definition verdict (edf rm : float) : Verdict :=
  if notna edf && notna rm then
    if float_ltb edf rm then EdfBetter else RmBetter
  else Unavailable.

Definition response_column (metrics : list (string * Metrics)) : list float :=
  (λ row, avg_response_ms row.2) <$> metrics.

Definition miss_column (metrics : list (string * Metrics)) : list float :=
  (λ row, miss_ratio row.2) <$> metrics.

Record Report := mkReport {
  edf_metrics : list (string * Metrics);
  rm_metrics : list (string * Metrics);
  edf_wdt : Estimate;
  rm_wdt : Estimate;
  response_verdict : Verdict;
  miss_verdict : Verdict
}.

(** The script from the two parsed frames to its comparison summary: both
    frames are reconciled, then summarised, the EDF one first. *)
Definition compare_runs (edf_df rm_df : DataFrame) : Result Report :=
  edf ← analyze edf_df;
  rm ← analyze rm_df;
  Ok {| edf_metrics := edf;
        rm_metrics := rm;
        edf_wdt := watchdog_interval edf_df;
        rm_wdt := watchdog_interval rm_df;
        response_verdict :=
          verdict (column_mean (response_column edf)) (column_mean (response_column rm));
        miss_verdict :=
          verdict (column_mean (miss_column edf)) (column_mean (miss_column rm)) |}.

(** Floats that are at least zero, infinity included. *)
Definition nonneg (x : float) : Prop :=
  match x with
  | Finite k => (0 ≤ k)%Z
  | Infinity negative => negative = false
  | NaN => False
  end.

(** No task of the frame has a response sample. *)
Definition no_response (df : DataFrame) : Prop :=
  ∀ t, t ∈ task_names df →
       dict_get t (resp_map (build_task_execution_lists df)) [] = [].

Definition scenario_no_response : DataFrame :=
  [ev 10 START "T1"; ev 40 COMPLETE "T1"].

(** ** [plot_distribution]

    The function draws three figures; the model returns what it hands to
    the plotting library: the wedges and labels of the pie with the total
    the percentages are printed against, the bars of the release counts,
    and the grid of histograms. *)

(** A number of the pie: a Python integer or a float. *)
Inductive PyNum := PInt (z : Z) | PFloat (x : float).

(** The conversion of the integer operand in mixed arithmetic:
    [OverflowError] beyond the finite doubles. *)
Definition int_to_float (z : Z) : Result float :=
  match of_int z with
  | Finite k => Ok (Finite k)
  | _ => Raise OverflowError
  end.

(** [a + b] *)
Definition num_add (a b : PyNum) : Result PyNum :=
  match a, b with
  | PInt x, PInt y => Ok (PInt (x + y))
  | PInt x, PFloat y => fx ← int_to_float x; Ok (PFloat (fadd fx y))
  | PFloat x, PInt y => fy ← int_to_float y; Ok (PFloat (fadd x fy))
  | PFloat x, PFloat y => Ok (PFloat (fadd x y))
  end.

(** The built-in [sum]: the items are added from the left to the integer
    [0].  (CPython 3.12 adds floats with a running compensation; on the
    lists summed here, whose floats are all [0.0] or all [1.0], the
    compensation stays zero as long as the additions are exact.) *)
Definition num_sum (l : list PyNum) : Result PyNum :=
  foldl (λ acc x, a ← acc; num_add a x) (Ok (PInt 0)) l.

(** [x <= y] on floats. *)
Definition float_leb (x y : float) : bool :=
  match x, y with
  | Finite a, Finite b => (a <=? b)%Z
  | Finite _, Infinity negative => negb negative
  | Infinity negative, Finite _ => negative
  | Infinity a, Infinity b => a || negb b
  | _, _ => false
  end.

(** [x <= 0] *)
Definition num_le_zero (x : PyNum) : bool :=
  match x with
  | PInt z => (z <=? 0)%Z
  | PFloat f => float_leb f (Finite 0)
  end.

(** [max(0.0, x)]: the first argument unless the second is greater. *)
Definition max_zero (x : PyNum) : PyNum :=
  let greater :=
    match x with
    | PInt z => (0 <? z)%Z
    | PFloat f => float_ltb (Finite 0) f
    end in
  if greater then x else PFloat (Finite 0).

(** A dictionary filled key by key, by a loop of assignments or by a
    dictionary comprehension. *)
Definition dict_of {V} (f : string → V) (keys : list string) : dict V :=
  foldl (λ acc t, dict_set t (f t) acc) [] keys.

(** What is drawn on one axis of the grid of histograms. *)
Inductive Panel := Histogram (data : list Z) | NoSamples.

(** The third figure: [rows] by two axes, numbered row by row; the
    panels with the number of their axis, and the axes deleted at the
    end. *)
Record Grid := mkGrid {
  grid_rows : nat;
  panels : list (nat * (string * Panel));
  deleted_axes : list nat
}.

Record Plots := mkPlots {
  pie_sizes : list PyNum;
  pie_total : PyNum;
  pie_labels : list string;
  release_bars : dict nat;
  histograms : option Grid
}.

(** The part after the release count bar; [None] is the return after the
    warning that there is no task. *)
Definition histogram_grid (exec_map : dict (list Z)) (tasks : list string) : option Grid :=
  let n := length tasks in
  if bool_decide (n = 0) then None
  else
    let cols := 2 in
    let rows := (n + cols - 1) `div` cols in
    let axes := rows * cols in
    let panel (i : nat) (t : string) :=
      let data := filter (λ v, (0 ≤ v)%Z) (dict_get t exec_map []) in
      (i, (t, match data with [] => NoSamples | _ => Histogram data end)) in
    let drawn := imap panel tasks in
    let used_axes := length drawn in
    Some {| grid_rows := rows;
            panels := drawn;
            deleted_axes := seq used_axes (axes - used_axes) |}.

Definition plot_distribution (exec_map releases_map : dict (list Z)) : Result Plots :=
  let tasks := dict_keys exec_map in
  let total_execs :=
    dict_of (λ t, PInt (py_sum (filter (λ v, (0 < v)%Z) (dict_get t exec_map [])))) tasks in
  let sizes := (λ t, max_zero (dict_get t total_execs (PFloat (Finite 0)))) <$> tasks in
  sum_sizes ← num_sum sizes;
  pie ← (if num_le_zero sum_sizes then
           let ones := (λ _, PFloat (Finite one_units)) <$> sizes in
           total ← num_sum ones; Ok (ones, total)
         else Ok (sizes, sum_sizes));
  let counts := dict_of (λ t, length (dict_get t releases_map [])) tasks in
  Ok {| pie_sizes := pie.1;
        pie_total := pie.2;
        pie_labels := tasks;
        release_bars := counts;
        histograms := histogram_grid exec_map tasks |}.

(** Numbers that are at least zero, and numbers above zero. *)
Definition num_nonneg (x : PyNum) : Prop :=
  match x with
  | PInt z => (0 ≤ z)%Z
  | PFloat f => nonneg f
  end.

Definition num_pos (x : PyNum) : Prop :=
  match x with
  | PInt z => (0 < z)%Z
  | PFloat (Finite k) => (0 < k)%Z
  | PFloat (Infinity negative) => negative = false
  | PFloat NaN => False
  end.

(** The time a task has spent executing according to its samples. *)
Definition cpu_time (exec_map : dict (list Z)) (t : string) : Z :=
  py_sum (filter (λ v, (0 < v)%Z) (dict_get t exec_map [])).

(** The wedge for a total execution time: the total, or [0.0] when there
    is none. *)
Definition wedge_of (total : Z) : PyNum :=
  if (0 <? total)%Z then PInt total else PFloat (Finite 0).

Definition wedge (exec_map : dict (list Z)) (t : string) : PyNum :=
  wedge_of (cpu_time exec_map t).

(** The panel for a list of samples. *)
Definition panel_of (samples : list Z) : Panel :=
  match samples with
  | [] => NoSamples
  | _ => Histogram samples
  end.

(** A histogram has data, none of it negative. *)
Definition panel_ok (p : Panel) : Prop :=
  match p with
  | Histogram data => data ≠ [] ∧ Forall (λ v, (0 ≤ v)%Z) data
  | NoSamples => True
  end.

Definition scenario_idle_task : DataFrame :=
  [ev 0 RELEASE "T1"; ev 10 START "T1"; ev 40 COMPLETE "T1";
   ev 50 RELEASE "T2"; ev 60 START "T2"; ev 60 COMPLETE "T2";
   ev 70 START "T3"].

(** * Properties of the reconciler *)

#[global] Instance time_le_trans : Transitive time_le.
Proof. intros a b c. unfold time_le. lia. Qed.

#[global] Instance time_le_total : Total time_le.
Proof. intros a b. unfold time_le. lia. Qed.

(** ** The search for the next COMPLETE *)

Lemma enumerate_lookup {A} (l : list A) i p :
  enumerate l !! i = Some p ↔ p.1 = i ∧ l !! i = Some p.2.
Proof.
  unfold enumerate. rewrite list_lookup_imap. destruct (l !! i) as [x|]; simpl.
  - destruct p as [j y]; simpl. naive_solver.
  - naive_solver.
Qed.

Lemma next_complete_Some completes s used idx :
  next_complete completes s used = Some idx ↔
  eligible completes used s idx ∧
  ∀ j, j < idx → ¬ eligible completes used s j.
Proof.
  unfold next_complete, eligible. rewrite fmap_Some. split.
  - intros ([i [i' c]] & Hfind & ->). simpl.
    apply list_find_Some in Hfind as (Hi & [Hle Hused] & Hmin).
    apply enumerate_lookup in Hi as [<- Hc]. simpl in *.
    split; [eauto|]. intros j Hj (c' & Hc' & Hle' & Hused').
    apply (Hmin j (j, c')); [by apply enumerate_lookup| done | done].
  - intros [(c & Hc & Hle & Hused) Hmin]. exists (idx, (idx, c)). split; [|done].
    apply list_find_Some. split_and!; [by apply enumerate_lookup| done | done |].
    intros j [j' c'] [Hj Hc']%enumerate_lookup Hlt [Hle' Hused']. simpl in *. subst j'.
    apply (Hmin j Hlt). eauto.
Qed.

Lemma next_complete_None completes s used :
  next_complete completes s used = None ↔
  ∀ j, ¬ eligible completes used s j.
Proof.
  unfold next_complete, eligible. rewrite fmap_None, list_find_None, Forall_forall.
  split.
  - intros H j (c & Hc & Hle & Hused). apply (H (j, c)); [|done].
    apply list_elem_of_lookup. exists j. by apply enumerate_lookup.
  - intros H [j c] [i [Hj Hc]%enumerate_lookup]%list_elem_of_lookup [Hle Hused].
    simpl in *. subst. apply (H i). eauto.
Qed.

(** ** The loop computes the first-fit matching *)

Lemma pair_step_match (warn : Z → Z → Warning) completes st s idx :
  eligible completes (used_complete_indices st) s idx →
  (∀ j, j < idx → ¬ eligible completes (used_complete_indices st) s j) →
  pair_step warn completes st s =
    {| samples := samples st ++ [(completes !!! idx - s)%Z];
       used_complete_indices := used_complete_indices st ∪ {[ idx ]};
       warned := warned st |}.
Proof.
  intros Hel Hmin. unfold pair_step.
  rewrite (proj2 (next_complete_Some _ _ _ _) (conj Hel Hmin)).
  destruct Hel as (c & Hc & Hle & _).
  rewrite (list_lookup_total_correct _ _ _ Hc).
  unfold record_sample. rewrite bool_decide_eq_true_2 by lia. done.
Qed.

Lemma pair_step_drop (warn : Z → Z → Warning) completes st s :
  (∀ j, ¬ eligible completes (used_complete_indices st) s j) →
  pair_step warn completes st s = st.
Proof.
  intros H. unfold pair_step. by rewrite (proj2 (next_complete_None _ _ _) H).
Qed.

Lemma pair_step_cases completes st s :
  (∃ idx, eligible completes (used_complete_indices st) s idx ∧
          (∀ j, j < idx → ¬ eligible completes (used_complete_indices st) s j))
  ∨ (∀ j, ¬ eligible completes (used_complete_indices st) s j).
Proof.
  destruct (next_complete completes s (used_complete_indices st)) as [idx|] eqn:E.
  - left. exists idx. by apply next_complete_Some.
  - right. by apply next_complete_None.
Qed.

Lemma foldl_pair_step (warn : Z → Z → Warning) completes points : ∀ st,
  ∃ m, first_fit completes (used_complete_indices st) points m ∧
       samples (foldl (pair_step warn completes) st points)
         = samples st ++ durations completes m ∧
       used_complete_indices (foldl (pair_step warn completes) st points)
         = used_complete_indices st ∪ list_to_set m.*2 ∧
       warned (foldl (pair_step warn completes) st points) = warned st.
Proof.
  induction points as [|s points IH]; intros st; simpl.
  - exists []. split_and!; [constructor | by rewrite app_nil_r | set_solver | done].
  - destruct (pair_step_cases completes st s) as [(idx & Hel & Hmin)|Hno].
    + rewrite (pair_step_match _ _ _ _ _ Hel Hmin).
      edestruct IH as (m & Hm & Hs & Hu & Hw). exists ((s, idx) :: m).
      rewrite Hs, Hu, Hw. simpl in *. split_and!.
      * by constructor.
      * by rewrite <- app_assoc.
      * set_solver.
      * done.
    + rewrite (pair_step_drop _ _ _ _ Hno).
      destruct (IH st) as (m & Hm & Hs & Hu & Hw). exists m.
      split_and!; [by constructor | done..].
Qed.

Lemma pair_loop_first_fit (warn : Z → Z → Warning) completes points :
  ∃ m, first_fit completes ∅ points m ∧
       samples (pair_loop warn completes points) = durations completes m ∧
       used_complete_indices (pair_loop warn completes points) = list_to_set m.*2 ∧
       warned (pair_loop warn completes points) = [].
Proof.
  destruct (foldl_pair_step warn completes points pair_init) as (m & Hm & Hs & Hu & Hw).
  exists m. unfold pair_loop. rewrite Hs, Hu, Hw. simpl.
  split_and!; [done.. | set_solver | done].
Qed.

Lemma first_fit_functional completes used points m1 m2 :
  first_fit completes used points m1 →
  first_fit completes used points m2 →
  m1 = m2.
Proof.
  intros H1. revert m2.
  induction H1 as [used|used s points idx m Hel Hmin _ IH|used s points m Hno _ IH];
    intros m2 H2; inversion H2 as [|? ? ? idx' m' Hel' Hmin' Hrest|? ? ? ? Hno' Hrest];
    subst; try done.
  - assert (idx = idx') as <-.
    { destruct (lt_eq_lt_dec idx idx') as [[Hlt| ->]|Hlt]; [|done|].
      - by destruct (Hmin' idx Hlt).
      - by destruct (Hmin idx' Hlt). }
    f_equal. by apply IH.
  - by destruct (Hno' idx).
  - by destruct (Hno idx').
  - by apply IH.
Qed.

Lemma first_fit_fresh completes used points m :
  first_fit completes used points m →
  NoDup m.*2 ∧ ∀ i, i ∈ m.*2 → i ∉ used.
Proof.
  induction 1 as [used|used s points idx m (c & _ & _ & Hfresh) _ _ [IHn IHu]|
                  used s points m _ _ IH]; simpl.
  - split; [constructor | set_solver].
  - split.
    + constructor; [|done]. intros Hin. apply IHu in Hin. set_solver.
    + intros i [->|Hin]%elem_of_cons; [done|]. apply IHu in Hin. set_solver.
  - done.
Qed.

Lemma first_fit_length completes used points m :
  first_fit completes used points m → length m ≤ length points.
Proof. induction 1; simpl; lia. Qed.

Lemma first_fit_nonneg completes used points m :
  first_fit completes used points m →
  Forall (λ d, (0 ≤ d)%Z) (durations completes m).
Proof.
  induction 1 as [|used s points idx m (c & Hc & Hle & _) _ _ IH|]; simpl.
  - constructor.
  - constructor; [|done]. simpl. rewrite (list_lookup_total_correct _ _ _ Hc). lia.
  - done.
Qed.

(** ** Sorted columns *)

Lemma StronglySorted_filter {A} (R : relation A) (P : A → Prop)
    `{!∀ x, Decision (P x)} (l : list A) :
  StronglySorted R l → StronglySorted R (filter P l).
Proof.
  induction 1 as [|x l _ IH Hx]; [constructor|].
  rewrite filter_cons. case_decide; [|done].
  constructor; [done|]. rewrite Forall_forall in Hx |- *.
  intros y [_ Hy]%list_elem_of_filter. by apply Hx.
Qed.

Lemma times_of_sorted k (dft : DataFrame) :
  StronglySorted Z.le (times_of k (sort_values dft)).
Proof.
  unfold times_of, where_event, sort_values.
  apply (StronglySorted_fmap _ time_le Z.le); [by intros a b|].
  apply StronglySorted_filter, StronglySorted_merge_sort; apply _.
Qed.

(** The column read from the sorted frame is the sorted column: the order
    of rows with equal timestamps plays no role. *)
Lemma times_of_sort_values k (dft : DataFrame) :
  times_of k (sort_values dft) = merge_sort Z.le (times_of k dft).
Proof.
  apply (StronglySorted_unique Z.le).
  - apply times_of_sorted.
  - apply StronglySorted_merge_sort; apply _.
  - rewrite merge_sort_Permutation. unfold times_of, where_event, sort_values.
    by rewrite merge_sort_Permutation.
Qed.

(** ** Task names *)

Lemma unique_elem_of (l : list string) x : x ∈ unique l ↔ x ∈ l.
Proof. unfold unique. by rewrite elem_of_reverse, elem_of_remove_dups, elem_of_reverse. Qed.

Lemma unique_NoDup (l : list string) : NoDup (unique l).
Proof. unfold unique. rewrite reverse_Permutation. apply NoDup_remove_dups. Qed.

Lemma task_names_NoDup df : NoDup (task_names df).
Proof. unfold task_names. apply NoDup_filter, unique_NoDup. Qed.

Lemma task_names_elem_of df t :
  t ∈ task_names df ↔ ((t ∉ infrastructure) ∧ ∃ r, r ∈ df ∧ task r = t).
Proof.
  unfold task_names. rewrite list_elem_of_filter, unique_elem_of, list_elem_of_fmap.
  naive_solver.
Qed.

(** ** Dictionaries *)

Lemma dict_set_fresh {V} k (v : V) (m : dict V) :
  k ∉ dict_keys m → dict_set k v m = m ++ [(k, v)].
Proof.
  unfold dict_keys. induction m as [|[k' v'] m IH]; simpl; [done|].
  intros Hk. apply not_elem_of_cons in Hk as [Hne Hk].
  rewrite decide_False by done. by rewrite IH.
Qed.

Lemma dict_keys_app {V} (m1 m2 : dict V) :
  dict_keys (m1 ++ m2) = dict_keys m1 ++ dict_keys m2.
Proof. unfold dict_keys. by rewrite fmap_app. Qed.

Lemma dict_keys_entries {V} (f : string → V) (l : list string) :
  dict_keys ((λ t, (t, f t)) <$> l) = l.
Proof.
  unfold dict_keys. rewrite <- list_fmap_compose.
  induction l as [|x l IH]; [done|]. rewrite fmap_cons. simpl. by rewrite IH.
Qed.

Lemma dict_get_entries {V} (f : string → V) (l : list string) t dflt :
  dict_get t ((λ t, (t, f t)) <$> l) dflt = if decide (t ∈ l) then f t else dflt.
Proof.
  induction l as [|x l IH].
  - simpl. destruct (decide (t ∈ [])) as [Hin|]; [|done]. by apply elem_of_nil in Hin.
  - rewrite fmap_cons. simpl. destruct (decide (t = x)) as [->|Hne].
    + rewrite decide_True; [done|]. apply elem_of_cons; auto.
    + rewrite IH. destruct (decide (t ∈ l)) as [Hin|Hin].
      * rewrite decide_True; [done|]. apply elem_of_cons; auto.
      * rewrite decide_False; [done|]. rewrite elem_of_cons. naive_solver.
Qed.

(** ** The three maps *)

Lemma pair_loop_warned (warn : Z → Z → Warning) completes points :
  warned (pair_loop warn completes points) = [].
Proof. by destruct (pair_loop_first_fit warn completes points) as (? & _ & _ & _ & ->). Qed.

Lemma build_task_eq df acc t :
  build_task df acc t =
    {| exec_map := dict_set t (execs_of df t) (exec_map acc);
       resp_map := dict_set t (resps_of df t) (resp_map acc);
       releases_map := dict_set t (releases_of df t) (releases_map acc);
       warnings := warnings acc |}.
Proof.
  unfold build_task, execs_of, resps_of, completes_of, starts_of, releases_of.
  cbv zeta. rewrite !pair_loop_warned. by rewrite !app_nil_r.
Qed.

Lemma foldl_build_task df (l : list string) : ∀ acc,
  NoDup l →
  (∀ t, t ∈ l → (t ∉ dict_keys (exec_map acc)) ∧ (t ∉ dict_keys (resp_map acc))
                ∧ (t ∉ dict_keys (releases_map acc))) →
  exec_map (foldl (build_task df) acc l)
    = exec_map acc ++ ((λ t, (t, execs_of df t)) <$> l) ∧
  resp_map (foldl (build_task df) acc l)
    = resp_map acc ++ ((λ t, (t, resps_of df t)) <$> l) ∧
  releases_map (foldl (build_task df) acc l)
    = releases_map acc ++ ((λ t, (t, releases_of df t)) <$> l) ∧
  warnings (foldl (build_task df) acc l) = warnings acc.
Proof.
  induction l as [|t l IH]; intros acc Hnd Hfresh.
  - simpl. by rewrite !app_nil_r.
  - apply NoDup_cons in Hnd as [Ht Hnd].
    destruct (Hfresh t) as (He & Hr & Hl); [apply elem_of_cons; auto|].
    rewrite fmap_cons. change (foldl (build_task df) acc (t :: l))
      with (foldl (build_task df) (build_task df acc t) l).
    destruct (IH (build_task df acc t) Hnd) as (IHe & IHr & IHl & IHw).
    { intros t' Ht'. assert (t' ≠ t) by (intros ->; done).
      destruct (Hfresh t') as (He' & Hr' & Hl'); [apply elem_of_cons; auto|].
      rewrite build_task_eq. simpl.
      rewrite !dict_set_fresh, !dict_keys_app by done. unfold dict_keys at 2 4 6. simpl.
      rewrite !elem_of_app, !list_elem_of_singleton. naive_solver. }
    rewrite IHe, IHr, IHl, IHw, build_task_eq. simpl.
    rewrite !dict_set_fresh by done. by rewrite <- !app_assoc.
Qed.

Lemma build_maps df :
  exec_map (build_task_execution_lists df)
    = (λ t, (t, execs_of df t)) <$> task_names df ∧
  resp_map (build_task_execution_lists df)
    = (λ t, (t, resps_of df t)) <$> task_names df ∧
  releases_map (build_task_execution_lists df)
    = (λ t, (t, releases_of df t)) <$> task_names df ∧
  warnings (build_task_execution_lists df) = [].
Proof.
  unfold build_task_execution_lists.
  apply (foldl_build_task df (task_names df)); [apply task_names_NoDup|].
  intros t _. simpl. unfold dict_keys. simpl. split_and!; apply not_elem_of_nil.
Qed.

Lemma execs_of_first_fit df t :
  ∃ m, first_fit (completes_of df t) ∅ (starts_of df t) m ∧
       execs_of df t = durations (completes_of df t) m.
Proof.
  destruct (pair_loop_first_fit (NegativeExec t) (completes_of df t) (starts_of df t))
    as (m & Hm & Hs & _). by exists m.
Qed.

Lemma resps_of_first_fit df t :
  ∃ m, first_fit (completes_of df t) ∅ (releases_of df t) m ∧
       resps_of df t = durations (completes_of df t) m.
Proof.
  destruct (pair_loop_first_fit (NegativeResponse t) (completes_of df t) (releases_of df t))
    as (m & Hm & Hs & _). by exists m.
Qed.

(** * Properties of the float operations *)

Section Binary64_facts.
Local Open Scope Z_scope.

Lemma div_half_even_exact c d : 0 < d → div_half_even (c * d) d = c.
Proof.
  intros Hd. unfold div_half_even.
  rewrite Z.div_mul, Z.mod_mul by lia.
  destruct (Z.ltb_spec (2 * 0) d); [done|lia].
Qed.

Lemma div_half_even_bounds n d c :
  0 < d → 0 ≤ n → n ≤ c * d → 0 ≤ div_half_even n d ≤ c.
Proof.
  intros Hd Hn Hc. unfold div_half_even.
  pose proof (Z.div_mod n d ltac:(lia)) as Hdm.
  pose proof (Z.mod_pos_bound n d Hd) as Hr.
  pose proof (Z.div_pos n d Hn Hd) as Hq.
  set (q := n / d) in *. set (r := n mod d) in *.
  assert (q ≤ c) by nia.
  assert (0 < r → q < c) by nia.
  destruct (Z.ltb_spec (2 * r) d); [lia|].
  destruct (Z.ltb_spec d (2 * r)); [lia|].
  destruct (Z.even q); lia.
Qed.

Lemma div_half_even_scale c n d :
  0 < c → 0 < d → div_half_even (c * n) (c * d) = div_half_even n d.
Proof.
  intros Hc Hd. unfold div_half_even.
  rewrite Z.div_mul_cancel_l, Z.mul_mod_distr_l by lia.
  set (q := n / d). set (r := n mod d).
  assert (E1 : (2 * (c * r) <? c * d) = (2 * r <? d)).
  { destruct (Z.ltb_spec (2 * r) d), (Z.ltb_spec (2 * (c * r)) (c * d)); try done; nia. }
  assert (E2 : (c * d <? 2 * (c * r)) = (d <? 2 * r)).
  { destruct (Z.ltb_spec d (2 * r)), (Z.ltb_spec (c * d) (2 * (c * r))); try done; nia. }
  by rewrite E1, E2.
Qed.

Lemma nearest_scale c n d :
  0 < c → 0 < d → nearest (c * n) (c * d) = nearest n d.
Proof.
  intros Hc Hd. unfold nearest.
  rewrite Z.div_mul_cancel_l by lia.
  set (s := Z.max 0 (Z.log2 (n / d) - 52)).
  assert (0 < 2 ^ s) by (apply Z.pow_pos_nonneg; lia).
  rewrite <- Z.mul_assoc, div_half_even_scale by lia. done.
Qed.

Lemma round_units_scale c n d :
  0 < c → 0 < d → round_units (c * n) (c * d) = round_units n d.
Proof.
  intros Hc Hd. unfold round_units. cbv zeta.
  rewrite !(Z.abs_mul c n), (Z.abs_eq c), nearest_scale by lia.
  rewrite Z.sgn_mul, (Z.sgn_pos c), Z.mul_1_l by lia.
  replace (c * n <? 0) with (n <? 0); [done|].
  destruct (Z.ltb_spec n 0), (Z.ltb_spec (c * n) 0); try done; nia.
Qed.

Lemma nearest_bounds n d e :
  0 ≤ n → 0 < d → 0 ≤ e → n ≤ 2 ^ e * d → 0 ≤ nearest n d ≤ 2 ^ e.
Proof.
  intros Hn Hd He Hle. unfold nearest.
  assert (Hq : n / d ≤ 2 ^ e).
  { apply Z.div_le_upper_bound; lia. }
  assert (Hl : Z.log2 (n / d) ≤ e).
  { rewrite <- (Z.log2_pow2 e He). by apply Z.log2_le_mono. }
  set (s := Z.max 0 (Z.log2 (n / d) - 52)).
  assert (Hs : 0 ≤ s ≤ e) by lia.
  assert (Hp : 0 < 2 ^ s) by (apply Z.pow_pos_nonneg; lia).
  assert (Hc : 0 < 2 ^ (e - s)) by (apply Z.pow_pos_nonneg; lia).
  assert (Hsplit : 2 ^ e = 2 ^ (e - s) * 2 ^ s).
  { rewrite <- Z.pow_add_r by lia. f_equal. lia. }
  pose proof (div_half_even_bounds n (d * 2 ^ s) (2 ^ (e - s))) as Hb.
  destruct Hb as [Hb1 Hb2]; [nia | lia | nia |].
  rewrite Hsplit. nia.
Qed.

Lemma nearest_exact a e :
  0 ≤ a < 2 ^ 53 → 0 ≤ e → nearest (a * 2 ^ e) 1 = a * 2 ^ e.
Proof.
  intros [Ha0 Ha] He. unfold nearest. rewrite Z.div_1_r, Z.mul_1_l.
  destruct (decide (a = 0)) as [->|Hne].
  { rewrite Z.mul_0_l. simpl. unfold div_half_even. simpl. done. }
  rewrite Z.log2_mul_pow2 by lia.
  assert (Hl : Z.log2 a < 53) by (apply Z.log2_lt_pow2; lia).
  pose proof (Z.log2_nonneg a) as Hl0.
  set (s := Z.max 0 (e + Z.log2 a - 52)).
  assert (Hs : 0 ≤ s ≤ e) by lia.
  assert (Hp : 0 < 2 ^ s) by (apply Z.pow_pos_nonneg; lia).
  assert (Hsplit : 2 ^ e = 2 ^ (e - s) * 2 ^ s).
  { rewrite <- Z.pow_add_r by lia. f_equal. lia. }
  rewrite Hsplit at 1. rewrite Z.mul_assoc, div_half_even_exact by done.
  rewrite Hsplit. ring.
Qed.

Lemma one_units_pos : 0 < one_units.
Proof. unfold one_units. apply Z.pow_pos_nonneg; lia. Qed.

Lemma overflow_units_eq : overflow_units = 2 ^ 1024 * one_units.
Proof. unfold overflow_units, one_units. rewrite <- Z.pow_add_r by lia. done. Qed.

(** A quotient in [[0, 1]] rounds to a double in [[0, 1]]. *)
Lemma round_units_unit_interval n d :
  0 < d → 0 ≤ n → n ≤ d →
  ∃ k, round_units (n * one_units) d = Finite k ∧ 0 ≤ k ≤ one_units.
Proof.
  intros Hd Hn Hle. pose proof one_units_pos as HU.
  unfold round_units. cbv zeta.
  destruct (nearest_bounds (Z.abs (n * one_units)) d 1074) as [Hk0 Hk1]; [lia..| |].
  { fold one_units. nia. }
  fold one_units in Hk1.
  set (k := nearest (Z.abs (n * one_units)) d) in *.
  assert (Hsg : 0 ≤ Z.sgn (n * one_units) ≤ 1) by lia.
  assert (Hres : 0 ≤ Z.sgn (n * one_units) * k ≤ one_units) by nia.
  exists (Z.sgn (n * one_units) * k). split; [|done].
  assert (Hov : one_units < overflow_units).
  { rewrite overflow_units_eq. assert (1 < 2 ^ 1024) by (apply Z.pow_gt_1; lia). nia. }
  destruct (Z.leb_spec overflow_units (Z.abs (Z.sgn (n * one_units) * k))); [lia|done].
Qed.

(** Integers below [2^53] in magnitude convert exactly. *)
Lemma of_int_exact z : Z.abs z < 2 ^ 53 → of_int z = Finite (z * one_units).
Proof.
  intros Hz. pose proof one_units_pos as HU. unfold of_int, round_units. cbv zeta.
  assert (Hn : nearest (Z.abs (z * one_units)) 1 = Z.abs z * one_units).
  { rewrite Z.abs_mul, (Z.abs_eq one_units) by lia.
    unfold one_units. apply nearest_exact; lia. }
  rewrite Hn.
  assert (Hk : Z.sgn (z * one_units) * (Z.abs z * one_units) = z * one_units) by nia.
  rewrite Hk.
  assert (Hov : Z.abs (z * one_units) < overflow_units).
  { rewrite overflow_units_eq.
    assert (2 ^ 53 < 2 ^ 1024) by (apply Z.pow_lt_mono_r; lia). nia. }
  destruct (Z.leb_spec overflow_units (Z.abs (z * one_units))); [lia|done].
Qed.

Lemma of_int_not_nan z : of_int z ≠ NaN.
Proof. unfold of_int, round_units. by case_match. Qed.


(** ** Agreement with the reference operations on samples *)

Example of_int_agrees :
  forallb (λ z, agree (SF64_of_int z) (of_int z)) sample_ints = true.
Proof. vm_compute. reflexivity. Qed.

Example fdiv_agrees :
  forallb (λ p, agree (SF64_div (SF64_of_int p.1) (SF64_of_int p.2))
                      (fdiv (of_int p.1) (of_int p.2))) sample_pairs = true.
Proof. vm_compute. reflexivity. Qed.

Example int_truediv_agrees :
  forallb (λ p, match int_truediv p.1 p.2 with
                | Ok q => agree (SF64_div (SF64_of_int p.1) (SF64_of_int p.2)) q
                | Raise _ => false
                end) sample_exact_pairs = true.
Proof. vm_compute. reflexivity. Qed.

Example fadd_agrees :
  forallb (λ p, agree (SF64_add (SF64_of_int p.1) (SF64_of_int p.2))
                      (fadd (of_int p.1) (of_int p.2)))
          (sample_few_pairs ++ [(2 ^ 53, 1); (2 ^ 53, 3); (2 ^ 1023, 2 ^ 1023)]) = true.
Proof. vm_compute. reflexivity. Qed.

Example fmul_agrees :
  forallb (λ p, agree (SF64_mul (SF64_div (SF64_of_int p.1) (SF64_of_int p.2))
                                (SF64_of_int 100))
                      (fmul (fdiv (of_int p.1) (of_int p.2)) (of_int 100)))
          sample_few_pairs = true.
Proof. vm_compute. reflexivity. Qed.

(** Quotients of quotients, down to the subnormal range. *)
Example fdiv_small_agrees :
  forallb (λ p, agree (SF64_div (SF64_div (SF64_of_int p.1) (SF64_of_int (2 ^ 1022)))
                                (SF64_of_int p.2))
                      (fdiv (fdiv (of_int p.1) (of_int (2 ^ 1022))) (of_int p.2)))
          [(1, 3); (1, 2 ^ 51); (3, 2 ^ 52); (1, 2 ^ 52); (5, 2 ^ 53); (1, 2 ^ 53)]
    = true.
Proof. vm_compute. reflexivity. Qed.

End Binary64_facts.

(** * Properties of the summary *)

Lemma collect_Forall2 {A B} (f : A → Result B) (l : list A) (bs : list B) :
  collect f l = Ok bs → Forall2 (λ a b, f a = Ok b) l bs.
Proof.
  revert bs. induction l as [|a l IH]; intros bs; simpl.
  - intros [= <-]. constructor.
  - destruct (f a) as [b|] eqn:Hb; simpl; [|done].
    destruct (collect f l) as [bs'|]; simpl; [|done].
    intros [= <-]. constructor; [done|]. by apply IH.
Qed.

Lemma analyze_from_lists_rows em rm lm df rows :
  analyze_from_lists em rm lm df = Ok rows →
  Forall2 (λ t row, summarize em rm lm df t = Ok row) (dict_keys em) rows.
Proof.
  unfold analyze_from_lists.
  destruct (collect _ _) as [metrics|] eqn:Hc; simpl; [|done].
  destruct metrics; [done|]. intros [= <-]. by apply collect_Forall2.
Qed.

(** What a row holds, entry by entry. *)
Lemma summarize_Ok em rm lm df t row :
  summarize em rm lm df t = Ok row →
  let releases := dict_get t lm [] in
  row.1 = t ∧
  mean_or_nan (dict_get t em []) = Ok (avg_exec_time_ms row.2) ∧
  mean_or_nan (dict_get t rm []) = Ok (avg_response_ms row.2) ∧
  (λ q, py_round q 3) <$>
    int_truediv (Z.of_nat (miss_count df t))
                (Z.of_nat (if bool_decide (0 < length releases) then length releases else 1))
    = Ok (miss_ratio row.2) ∧
  total_exec_time_ms row.2 = py_sum (dict_get t em []) ∧
  release_count row.2 = length releases.
Proof.
  unfold summarize, miss_count. cbv zeta.
  destruct (mean_or_nan (dict_get t em [])) as [ae|]; simpl; [|done].
  destruct (mean_or_nan (dict_get t rm [])) as [ar|]; simpl; [|done].
  destruct (_ <$> int_truediv _ _) as [mr|]; simpl; [|done].
  by intros [= <-].
Qed.

Lemma analyze_from_lists_row em rm lm df rows row :
  analyze_from_lists em rm lm df = Ok rows → row ∈ rows →
  row.1 ∈ dict_keys em ∧ summarize em rm lm df row.1 = Ok row.
Proof.
  intros Hrows%analyze_from_lists_rows Hin.
  apply list_elem_of_lookup in Hin as [i Hi].
  destruct (Forall2_lookup_r _ _ _ _ _ Hrows Hi) as (t & Ht & Hsum).
  destruct (summarize_Ok _ _ _ _ _ _ Hsum) as [-> _].
  split; [|done]. apply list_elem_of_lookup. eauto.
Qed.

Lemma foldl_add_foldr (l : list Z) : ∀ a,
  foldl Z.add a l = (a + foldr Z.add 0 l)%Z.
Proof.
  induction l as [|x l IH]; intros a; simpl; [lia|]. rewrite IH. lia.
Qed.

Lemma py_sum_foldr (l : list Z) : py_sum l = foldr Z.add 0%Z l.
Proof. unfold py_sum. by rewrite foldl_add_foldr. Qed.

Lemma analyze_task_names df rows row :
  analyze df = Ok rows → row ∈ rows →
  row.1 ∈ task_names df ∧
  summarize (exec_map (build_task_execution_lists df))
            (resp_map (build_task_execution_lists df))
            (releases_map (build_task_execution_lists df)) df row.1 = Ok row.
Proof.
  unfold analyze. intros Hrows Hin.
  destruct (analyze_from_lists_row _ _ _ _ _ _ Hrows Hin) as [Hk Hs].
  split; [|done]. destruct (build_maps df) as (He & _).
  rewrite He, dict_keys_entries in Hk. done.
Qed.

Section Ratio_facts.
Local Open Scope Z_scope.

Lemma int_truediv_unit_interval a b :
  0 ≤ a → a ≤ b → 0 < b →
  ∃ k, int_truediv a b = Ok (Finite k) ∧ 0 ≤ k ≤ one_units.
Proof.
  intros Ha Hab Hb. unfold int_truediv.
  destruct (Z.eqb_spec b 0); [lia|].
  rewrite Z.sgn_pos, Z.mul_1_l, Z.abs_eq by lia.
  destruct (round_units_unit_interval a b) as (k & -> & Hk); [lia..|]. eauto.
Qed.

Lemma py_round_unit_interval k ndigits :
  0 ≤ k ≤ one_units →
  ∃ k', py_round (Finite k) ndigits = Finite k' ∧ 0 ≤ k' ≤ one_units.
Proof.
  intros Hk. pose proof one_units_pos as HU. unfold py_round. cbv zeta.
  set (p := 10 ^ Z.of_nat ndigits).
  assert (Hp : 0 < p) by (apply Z.pow_pos_nonneg; lia).
  destruct (div_half_even_bounds (k * p) one_units p) as [Hr0 Hr1]; [lia | nia | nia |].
  by apply round_units_unit_interval.
Qed.

Lemma of_int_0 : of_int 0 = Finite 0.
Proof. by rewrite of_int_exact by (simpl; lia). Qed.

Lemma of_int_1 : of_int 1 = Finite one_units.
Proof. rewrite of_int_exact by (simpl; lia). by rewrite Z.mul_1_l. Qed.

(** Dividing a small integer by one and rounding to a few decimals gives
    the integer back, as a float. *)
Lemma round_of_whole a ndigits :
  Z.abs a < 2 ^ 53 →
  (λ q, py_round q ndigits) <$> int_truediv a 1 = Ok (of_int a).
Proof.
  intros Ha. pose proof one_units_pos as HU. unfold int_truediv.
  destruct (Z.eqb_spec 1 0); [lia|].
  change (Z.sgn 1) with 1. change (Z.abs 1) with 1. rewrite Z.mul_1_l.
  change (round_units (a * one_units) 1) with (of_int a).
  rewrite of_int_exact by done. simpl. f_equal.
  set (p := 10 ^ Z.of_nat ndigits).
  assert (Hp : 0 < p) by (apply Z.pow_pos_nonneg; lia).
  replace (a * one_units * p) with (a * p * one_units) by ring.
  rewrite div_half_even_exact by done.
  replace (a * p * one_units) with (p * (a * one_units)) by ring.
  rewrite <- (Z.mul_1_r p) at 2. rewrite round_units_scale by lia.
  by apply of_int_exact.
Qed.

End Ratio_facts.

(** ** When the summary is returned *)

Section Returns.
Local Open Scope Z_scope.

Lemma int_truediv_Ok a b :
  0 < b → Z.abs a ≤ 2 ^ 1023 * b → ∃ k, int_truediv a b = Ok (Finite k).
Proof.
  intros Hb Ha. pose proof one_units_pos as HU. unfold int_truediv.
  destruct (Z.eqb_spec b 0); [lia|].
  rewrite Z.sgn_pos, Z.mul_1_l, Z.abs_eq by lia.
  unfold round_units. cbv zeta.
  destruct (nearest_bounds (Z.abs (a * one_units)) b 2097) as [Hk0 Hk1]; [lia..| |].
  { rewrite Z.abs_mul, (Z.abs_eq one_units) by lia.
    replace (2 ^ 2097) with (2 ^ 1023 * one_units); [nia|].
    unfold one_units. by rewrite <- Z.pow_add_r by lia. }
  set (k := nearest (Z.abs (a * one_units)) b) in *.
  assert (Hov : 2 ^ 2097 < overflow_units).
  { unfold overflow_units. apply Z.pow_lt_mono_r; lia. }
  assert (Hsg : Z.abs (Z.sgn (a * one_units) * k) ≤ k) by nia.
  destruct (Z.leb_spec overflow_units (Z.abs (Z.sgn (a * one_units) * k))); [lia|].
  eauto.
Qed.

Lemma py_sum_bounds (xs : list Z) B :
  0 ≤ B → Forall (λ d, 0 ≤ d ≤ B) xs → 0 ≤ py_sum xs ≤ B * Z.of_nat (length xs).
Proof.
  intros HB Hall. rewrite py_sum_foldr.
  induction Hall as [|x xs Hx _ IH]; simpl; [lia|].
  rewrite Nat2Z.inj_succ. nia.
Qed.

Lemma mean_or_nan_Ok (xs : list Z) :
  Forall (λ d, 0 ≤ d ≤ 2 ^ 1023) xs → ∃ x, mean_or_nan xs = Ok x.
Proof.
  intros Hall. destruct xs as [|x xs]; [by exists NaN|].
  unfold mean_or_nan.
  pose proof (py_sum_bounds (x :: xs) (2 ^ 1023) ltac:(lia) Hall) as Hs.
  destruct (int_truediv_Ok (py_sum (x :: xs)) (Z.of_nat (length (x :: xs))))
    as (k & ->); [simpl; lia | lia |].
  simpl. eauto.
Qed.

Lemma collect_Ok {A B} (f : A → Result B) (l : list A) :
  Forall (λ a, ∃ b, f a = Ok b) l → ∃ bs, collect f l = Ok bs.
Proof.
  induction 1 as [|a l [b Hb] _ [bs IH]]; simpl; [eauto|].
  rewrite Hb. simpl. rewrite IH. simpl. eauto.
Qed.

Lemma first_fit_durations_bounded completes used points m B :
  Forall (λ c, 0 ≤ c ≤ B) completes →
  Forall (λ s, 0 ≤ s ≤ B) points →
  first_fit completes used points m →
  Forall (λ d, 0 ≤ d ≤ B) (durations completes m).
Proof.
  intros Hc Hp Hm.
  induction Hm as [|used s points idx m (c & Hidx & Hle & _) _ _ IH|used s points m _ _ IH];
    simpl.
  - constructor.
  - apply Forall_cons in Hp as [Hs Hp]. constructor; [|by apply IH]. simpl.
    rewrite (list_lookup_total_correct _ _ _ Hidx).
    pose proof (Forall_lookup_1 _ _ _ _ Hc Hidx) as Hcb. simpl in Hcb. lia.
  - apply Forall_cons in Hp as [_ Hp]. by apply IH.
Qed.

Lemma times_of_bounded k (t : string) (df : DataFrame) B :
  (∀ r, r ∈ df → 0 ≤ time_ms r ≤ B) →
  Forall (λ x, 0 ≤ x ≤ B) (times_of k (sort_values (where_task t df))).
Proof.
  intros Hdf. unfold times_of, where_event, sort_values, where_task.
  apply Forall_fmap, Forall_forall. intros r [_ Hr]%list_elem_of_filter.
  rewrite merge_sort_Permutation in Hr.
  apply list_elem_of_filter in Hr as [_ Hr]. by apply Hdf.
Qed.

Lemma miss_count_le df t : (miss_count df t ≤ length df)%nat.
Proof.
  unfold miss_count, where_event, where_task.
  etrans; [apply length_filter|]. apply length_filter.
Qed.

(** With no task besides the three excluded names the call raises
    [KeyError]. *)
Lemma analyze_no_task df : task_names df = [] → analyze df = Raise KeyError.
Proof.
  intros Hnil. unfold analyze, analyze_from_lists.
  destruct (build_maps df) as (-> & _). by rewrite dict_keys_entries, Hnil.
Qed.

End Returns.

(** * Properties of the watchdog estimate *)

#[global] Arguments of_int : simpl never.
#[global] Arguments round_units : simpl never.
#[global] Arguments int_truediv : simpl never.
#[global] Arguments py_round : simpl never.
#[global] Arguments np_round : simpl never.
#[global] Arguments fadd : simpl never.
#[global] Arguments fdiv : simpl never.

(** The model on the inputs of two runs of the function: a [uint64]
    column wraps a negative difference, and eight intervals are added
    in pairs. *)
Example watchdog_interval_uint64 :
  watchdog_interval scenario_uint64_pets = Interval (of_int (2 ^ 64)).
Proof. vm_compute. reflexivity. Qed.

Example watchdog_interval_nine :
  watchdog_interval scenario_nine_pets = Interval (Finite ((2 ^ 52 + 3) * 2 ^ 1072)).
Proof. vm_compute. reflexivity. Qed.

(** ** Differences *)





Lemma py_sum_exact_sum (l : list Z) : py_sum l = exact_sum l.
Proof. apply py_sum_foldr. Qed.







(** ** The sum of an array *)

Lemma foldl_fadd_sums (l : list float) : ∀ la a,
  sums la a → sums (la ++ l) (foldl fadd a l).
Proof.
  induction l as [|x l IH]; intros la a Ha.
  - by rewrite app_nil_r.
  - simpl. rewrite cons_middle, app_assoc. apply IH.
    apply sums_add; [done|constructor].
Qed.

Lemma zip_with_fadd_sums (Ls : list (list float)) (r c : list float) :
  Forall2 sums Ls r → length c = length r →
  Forall2 sums (zip_with (λ L x, L ++ [x]) Ls c) (zip_with fadd r c) ∧
  concat (zip_with (λ L x, L ++ [x]) Ls c) ≡ₚ concat Ls ++ c.
Proof.
  intros H. revert c. induction H as [|L x Ls r HL _ IH]; intros c Hlen.
  - destruct c; [|done]. split; [constructor|done].
  - destruct c as [|y c]; [done|]. simpl in Hlen.
    destruct (IH c) as [IH1 IH2]; [lia|]. split.
    + simpl. constructor; [|done]. apply sums_add; [done|constructor].
    + simpl. rewrite IH2, <- !app_assoc. apply Permutation_app_head.
      simpl. by rewrite Permutation_middle.
Qed.

Lemma add_groups_sums (groups : nat) : ∀ (Ls : list (list float)) r l,
  Forall2 sums Ls r → length r = 8 → 8 * groups ≤ length l →
  ∃ Ls', Forall2 sums Ls' (add_groups groups r l) ∧
         length (add_groups groups r l) = 8 ∧
         concat Ls' ≡ₚ concat Ls ++ take (8 * groups) l.
Proof.
  induction groups as [|g IH]; intros Ls r l HLs Hr Hl.
  - exists Ls. simpl. rewrite take_0, app_nil_r. done.
  - simpl add_groups.
    assert (Hc : length (take 8 l) = length r) by (rewrite length_take; lia).
    destruct (zip_with_fadd_sums Ls r (take 8 l) HLs Hc) as [H1 H2].
    destruct (IH _ (zip_with fadd r (take 8 l)) (drop 8 l) H1) as (Ls' & H3 & H4 & H5).
    { rewrite length_zip_with. lia. }
    { rewrite length_drop. lia. }
    exists Ls'. split_and!; [done..|].
    rewrite H5, H2, <- app_assoc. apply Permutation_app_head.
    replace (8 * S g) with (8 + 8 * g) by lia.
    by rewrite <- take_take_drop.
Qed.

Lemma add_two_by_two_sums (Ls : list (list float)) r :
  Forall2 sums Ls r → length r = 8 → sums (concat Ls) (add_two_by_two r).
Proof.
  intros H Hr.
  destruct H as [|L0 r0 ? ? H0 H]; [simpl in Hr; lia|].
  destruct H as [|L1 r1 ? ? H1 H]; [simpl in Hr; lia|].
  destruct H as [|L2 r2 ? ? H2 H]; [simpl in Hr; lia|].
  destruct H as [|L3 r3 ? ? H3 H]; [simpl in Hr; lia|].
  destruct H as [|L4 r4 ? ? H4 H]; [simpl in Hr; lia|].
  destruct H as [|L5 r5 ? ? H5 H]; [simpl in Hr; lia|].
  destruct H as [|L6 r6 ? ? H6 H]; [simpl in Hr; lia|].
  destruct H as [|L7 r7 ? ? H7 H]; [simpl in Hr; lia|].
  destruct H; [|simpl in Hr; lia].
  replace (concat [L0; L1; L2; L3; L4; L5; L6; L7])
    with (((L0 ++ L1) ++ (L2 ++ L3)) ++ ((L4 ++ L5) ++ (L6 ++ L7)))
    by (simpl; rewrite app_nil_r, <- !app_assoc; done).
  simpl. by repeat apply sums_add.
Qed.

Lemma singletons_sums (l : list float) : Forall2 sums ((λ x, [x]) <$> l) l.
Proof. induction l; constructor; [constructor|done]. Qed.

Lemma concat_singletons (l : list float) : concat ((λ x, [x]) <$> l) = l.
Proof. induction l as [|x l IH]; [done|]. simpl. f_equal. exact IH. Qed.

Lemma block_sum_sums (l : list float) : 8 ≤ length l → sums l (block_sum l).
Proof.
  intros Hn. unfold block_sum. cbv zeta.
  set (g := length l `div` 8 - 1).
  assert (Hg : 8 + 8 * g ≤ length l).
  { pose proof (Nat.div_mod_eq (length l) 8). unfold g. lia. }
  destruct (add_groups_sums g ((λ x, [x]) <$> take 8 l) (take 8 l) (drop 8 l))
    as (Ls' & H1 & H2 & H3).
  { apply singletons_sums. }
  { rewrite length_take. lia. }
  { rewrite length_drop. lia. }
  rewrite concat_singletons in H3.
  eapply sums_perm; [|apply foldl_fadd_sums, (add_two_by_two_sums Ls'); done].
  rewrite H3, <- app_assoc, <- (drop_drop l (8 * g) 8).
  by rewrite (take_drop (8 * g) (drop 8 l)), (take_drop 8 l).
Qed.

Lemma pairwise_sum_sums (fuel : nat) : ∀ l,
  length l ≤ fuel → sums l (pairwise_sum fuel l).
Proof.
  induction fuel as [|fuel IH]; intros l Hl.
  - destruct l; [|simpl in Hl; lia]. simpl. constructor.
  - cbn [pairwise_sum]. cbv zeta.
    case_bool_decide as H8; [apply (foldl_fadd_sums l [] (Finite 0)); constructor|].
    case_bool_decide as H128; [apply block_sum_sums; lia|].
    set (n2 := length l `div` 2 - (length l `div` 2) `mod` 8).
    assert (Hn2 : 0 < n2 < length l).
    { pose proof (Nat.div_mod_eq (length l) 2).
      pose proof (Nat.mod_upper_bound (length l) 2 ltac:(done)).
      pose proof (Nat.mod_upper_bound (length l `div` 2) 8 ltac:(done)).
      unfold n2. lia. }
    rewrite <- (take_drop n2 l) at 1.
    apply sums_add; apply IH.
    + rewrite length_take. lia.
    + rewrite length_drop. lia.
Qed.

Lemma series_sum_sums (l : list float) : sums l (series_sum l).
Proof.
  unfold series_sum. apply (sums_add [] l); [constructor|].
  by apply pairwise_sum_sums.
Qed.

(** ** Exact sums *)







(** ** The mean *)







(** * The reconciler's claims *)

Lemma get_exec_map df t :
  dict_get t (exec_map (build_task_execution_lists df)) []
    = if decide (t ∈ task_names df) then execs_of df t else [].
Proof. destruct (build_maps df) as (-> & _). apply dict_get_entries. Qed.

Lemma get_resp_map df t :
  dict_get t (resp_map (build_task_execution_lists df)) []
    = if decide (t ∈ task_names df) then resps_of df t else [].
Proof. destruct (build_maps df) as (_ & -> & _). apply dict_get_entries. Qed.

Lemma get_releases_map df t :
  dict_get t (releases_map (build_task_execution_lists df)) []
    = if decide (t ∈ task_names df) then releases_of df t else [].
Proof. destruct (build_maps df) as (_ & _ & -> & _). apply dict_get_entries. Qed.

(** C1. Whatever the lists of COMPLETE and START timestamps, the loop
    yields the durations of the first-fit matching started with nothing
    consumed: each START, in list order, takes the lowest-index COMPLETE
    that is not yet consumed and not earlier than it, and a START with no
    such COMPLETE adds nothing.  For a task of a frame the START list is
    ascending, the stored executions are the durations of that matching,
    and the matching is the only one.  The frame START@10, COMPLETE@40,
    START@50, COMPLETE@45 gives executions [30]. *)
Theorem C1_executions_first_fit :
  (∀ (warn : Z → Z → Warning) completes starts,
     ∃ m, first_fit completes ∅ starts m ∧
          samples (pair_loop warn completes starts) = durations completes m) ∧
  (∀ df t, t ∈ task_names df →
     let starts := starts_of df t in
     let completes := completes_of df t in
     let executions := dict_get t (exec_map (build_task_execution_lists df)) [] in
     StronglySorted Z.le starts ∧
     ∃ m, first_fit completes ∅ starts m ∧
          executions = durations completes m ∧
          ∀ m', first_fit completes ∅ starts m' → m' = m) ∧
  exec_map (build_task_execution_lists scenario_out_of_order) = [("T1", [30%Z])].
Proof.
  split_and!.
  - intros warn completes starts.
    destruct (pair_loop_first_fit warn completes starts) as (m & Hm & Hs & _). eauto.
  - intros df t Ht. cbv zeta. split; [apply times_of_sorted|].
    destruct (execs_of_first_fit df t) as (m & Hm & He). exists m.
    rewrite get_exec_map, decide_True by done. split_and!; [done..|].
    intros m' Hm'. by apply (first_fit_functional _ _ _ _ _ Hm' Hm).
  - vm_compute. reflexivity.
Qed.

Lemma C1_executions_first_fit_witness :
  let df := scenario_out_of_order in
  "T1" ∈ task_names df ∧
  StronglySorted Z.le (starts_of df "T1") ∧
  ∃ m, first_fit (completes_of df "T1") ∅ (starts_of df "T1") m ∧
       dict_get "T1" (exec_map (build_task_execution_lists df)) []
         = durations (completes_of df "T1") m ∧
       ∀ m', first_fit (completes_of df "T1") ∅ (starts_of df "T1") m' → m' = m.
Proof.
  assert (H : "T1" ∈ task_names scenario_out_of_order)
    by (vm_compute; apply list_elem_of_here).
  split; [exact H|].
  exact (proj1 (proj2 C1_executions_first_fit) scenario_out_of_order "T1" H).
Defined.

(** C2. For a task of a frame, executions and responses are the durations
    of two first-fit matchings over the same COMPLETE list, each started
    with nothing consumed; within either matching no COMPLETE index
    occurs twice.  One COMPLETE can serve both: in RELEASE@0, START@10,
    COMPLETE@40 the START and the RELEASE both take index 0.  The frame
    RELEASE@0, RELEASE@100, COMPLETE@50, COMPLETE@150 gives responses
    [50, 50]. *)
Theorem C2_independent_pools :
  (∀ df t, t ∈ task_names df →
     let completes := completes_of df t in
     let lists := build_task_execution_lists df in
     ∃ me mr,
       first_fit completes ∅ (starts_of df t) me ∧
       first_fit completes ∅ (releases_of df t) mr ∧
       dict_get t (exec_map lists) [] = durations completes me ∧
       dict_get t (resp_map lists) [] = durations completes mr ∧
       NoDup me.*2 ∧ NoDup mr.*2) ∧
  (let df := scenario_shared_complete in
   first_fit (completes_of df "T1") ∅ (starts_of df "T1") [(10%Z, 0)] ∧
   first_fit (completes_of df "T1") ∅ (releases_of df "T1") [(0%Z, 0)] ∧
   exec_map (build_task_execution_lists df) = [("T1", [30%Z])] ∧
   resp_map (build_task_execution_lists df) = [("T1", [40%Z])]) ∧
  resp_map (build_task_execution_lists scenario_two_releases)
    = [("T1", [50%Z; 50%Z])].
Proof.
  split_and!.
  - intros df t Ht. cbv zeta.
    destruct (execs_of_first_fit df t) as (me & Hme & He).
    destruct (resps_of_first_fit df t) as (mr & Hmr & Hr).
    exists me, mr. rewrite get_exec_map, get_resp_map, !decide_True by done.
    split_and!; try done.
    + by apply (first_fit_fresh _ _ _ _ Hme).
    + by apply (first_fit_fresh _ _ _ _ Hmr).
  - cbv zeta.
    assert (Hc : completes_of scenario_shared_complete "T1" = [40%Z])
      by (vm_compute; reflexivity).
    assert (Hs : starts_of scenario_shared_complete "T1" = [10%Z])
      by (vm_compute; reflexivity).
    assert (Hr : releases_of scenario_shared_complete "T1" = [0%Z])
      by (vm_compute; reflexivity).
    rewrite Hc, Hs, Hr. split_and!.
    + apply first_fit_pair; [|intros j Hj; lia|constructor].
      exists 40%Z. split_and!; [done|lia|set_solver].
    + apply first_fit_pair; [|intros j Hj; lia|constructor].
      exists 40%Z. split_and!; [done|lia|set_solver].
    + vm_compute. reflexivity.
    + vm_compute. reflexivity.
  - vm_compute. reflexivity.
Qed.

Lemma C2_independent_pools_witness :
  let df := scenario_two_releases in
  "T1" ∈ task_names df ∧
  ∃ me mr,
    first_fit (completes_of df "T1") ∅ (starts_of df "T1") me ∧
    first_fit (completes_of df "T1") ∅ (releases_of df "T1") mr ∧
    dict_get "T1" (exec_map (build_task_execution_lists df)) []
      = durations (completes_of df "T1") me ∧
    dict_get "T1" (resp_map (build_task_execution_lists df)) []
      = durations (completes_of df "T1") mr ∧
    NoDup me.*2 ∧ NoDup mr.*2.
Proof.
  assert (H : "T1" ∈ task_names scenario_two_releases)
    by (vm_compute; apply list_elem_of_here).
  split; [exact H|].
  exact (proj1 C2_independent_pools scenario_two_releases "T1" H).
Defined.

(** C6. Every stored execution and response duration is at least 0.  The
    branch for a pair whose duration is negative stores no sample, marks
    the COMPLETE used and appends one warning to the warnings issued,
    leaving the loop to go on with the next state; the reconciler itself
    finishes with no warning for every frame. *)
Theorem C6_durations_nonnegative :
  (∀ df t,
     Forall (λ d, (0 ≤ d)%Z) (dict_get t (exec_map (build_task_execution_lists df)) []) ∧
     Forall (λ d, (0 ≤ d)%Z) (dict_get t (resp_map (build_task_execution_lists df)) [])) ∧
  (∀ (warn : Z → Z → Warning) st s idx c,
     (c - s < 0)%Z →
     record_sample warn st s idx c =
       {| samples := samples st;
          used_complete_indices := used_complete_indices st ∪ {[ idx ]};
          warned := warned st ++ [warn s c] |}) ∧
  (∀ df, warnings (build_task_execution_lists df) = []).
Proof.
  split_and!.
  - intros df t. rewrite get_exec_map, get_resp_map.
    destruct (decide (t ∈ task_names df)); [|by split].
    destruct (execs_of_first_fit df t) as (me & Hme & ->).
    destruct (resps_of_first_fit df t) as (mr & Hmr & ->).
    split; eapply first_fit_nonneg; eauto.
  - intros warn st s idx c Hneg. unfold record_sample.
    by rewrite bool_decide_eq_false_2 by lia.
  - intros df. apply build_maps.
Qed.

Lemma C6_durations_nonnegative_witness :
  record_sample (NegativeExec "T1") pair_init 50 1 45 =
    {| samples := [];
       used_complete_indices := ∅ ∪ {[ 1 ]};
       warned := [NegativeExec "T1" 50 45] |}.
Proof.
  apply (proj1 (proj2 C6_durations_nonnegative) (NegativeExec "T1") pair_init 50%Z 1 45%Z).
  lia.
Defined.

(** C7. For every frame and task, the stored executions are no more than
    the task's START timestamps and the stored responses no more than its
    RELEASE timestamps. *)
Theorem C7_no_more_samples_than_events : ∀ df t,
  let lists := build_task_execution_lists df in
  length (dict_get t (exec_map lists) []) ≤ length (starts_of df t) ∧
  length (dict_get t (resp_map lists) []) ≤ length (releases_of df t).
Proof.
  intros df t. cbv zeta. rewrite get_exec_map, get_resp_map.
  destruct (decide (t ∈ task_names df)); [|simpl; lia].
  destruct (execs_of_first_fit df t) as (me & Hme & ->).
  destruct (resps_of_first_fit df t) as (mr & Hmr & ->).
  unfold durations. rewrite !length_fmap.
  split; eapply first_fit_length; eauto.
Qed.

(** * The summary's claims *)

Lemma total_releases (releases : list Z) :
  (if bool_decide (0 < length releases) then length releases else 1)
    = length releases `max` 1.
Proof. case_bool_decide; lia. Qed.

(** C3. In every row of the summary the miss ratio is the number of MISS
    rows of the task divided by the larger of the number of releases and
    1, as a float, rounded to 3 decimals.  With no release and fewer than
    2^53 MISS rows it is the MISS count itself.  Two MISS rows and no
    RELEASE give 2.0; four RELEASE rows and no MISS give 0.0. *)
Theorem C3_miss_ratio_formula :
  (∀ em rm lm df rows t m,
     analyze_from_lists em rm lm df = Ok rows → (t, m) ∈ rows →
     let releases := dict_get t lm [] in
     (λ q, py_round q 3) <$>
       int_truediv (Z.of_nat (miss_count df t)) (Z.of_nat (length releases `max` 1))
       = Ok (miss_ratio m) ∧
     (releases = [] → (Z.of_nat (miss_count df t) < 2 ^ 53)%Z →
      miss_ratio m = of_int (Z.of_nat (miss_count df t)))) ∧
  analyze scenario_two_misses =
    Ok [("T1", {| avg_exec_time_ms := NaN; avg_response_ms := NaN;
                  miss_ratio := of_int 2; total_exec_time_ms := 0;
                  release_count := 0 |})] ∧
  analyze scenario_four_releases =
    Ok [("T1", {| avg_exec_time_ms := NaN; avg_response_ms := NaN;
                  miss_ratio := of_int 0; total_exec_time_ms := 0;
                  release_count := 4 |})].
Proof.
  split_and!.
  - intros em rm lm df rows t m Hrows Hin. cbv zeta.
    destruct (analyze_from_lists_row _ _ _ _ _ _ Hrows Hin) as [_ Hsum].
    destruct (summarize_Ok _ _ _ _ _ _ Hsum) as (_ & _ & _ & Hratio & _).
    simpl in Hratio. rewrite total_releases in Hratio. split; [done|].
    intros Hnil Hsmall. rewrite Hnil in Hratio. simpl in Hratio.
    rewrite round_of_whole in Hratio by lia. by injection Hratio as <-.
  - vm_compute. reflexivity.
  - vm_compute. reflexivity.
Qed.

Lemma C3_miss_ratio_formula_witness :
  (λ q, py_round q 3) <$> int_truediv 2 1 = Ok (of_int 2) ∧
  (([] : list Z) = [] → (2 < 2 ^ 53)%Z → of_int 2 = of_int 2).
Proof.
  pose (m := {| avg_exec_time_ms := NaN; avg_response_ms := NaN;
                miss_ratio := of_int 2; total_exec_time_ms := 0;
                release_count := 0 |}).
  refine (proj1 C3_miss_ratio_formula [("T1", [])] [("T1", [])] [("T1", [])]
            scenario_two_misses [("T1", m)] "T1" m _ _).
  - vm_compute. reflexivity.
  - apply list_elem_of_here.
Defined.

(** C4 as stated fails: one RELEASE and two MISS rows give the ratio 2.0. *)
Lemma C4_counterexample :
  ¬ (∀ df rows t m,
       analyze df = Ok rows → (t, m) ∈ rows → releases_of df t ≠ [] →
       in_unit_interval (miss_ratio m)).
Proof.
  intros H.
  pose (m := {| avg_exec_time_ms := NaN; avg_response_ms := NaN;
                miss_ratio := of_int 2; total_exec_time_ms := 0;
                release_count := 1 |}).
  destruct (H scenario_more_misses [("T1", m)] "T1" m) as [_ Hle].
  - vm_compute. reflexivity.
  - apply list_elem_of_here.
  - vm_compute. discriminate.
  - unfold m in Hle. cbn [miss_ratio] in Hle.
    rewrite !of_int_exact in Hle by (simpl; lia).
    pose proof one_units_pos. simpl in Hle. lia.
Qed.

(** C4, amended. For every task with at least one RELEASE row and no more
    MISS rows than RELEASE rows, the miss ratio of its summary row lies
    between 0.0 and 1.0. *)
Theorem C4_miss_ratio_in_unit_interval : ∀ df rows t m,
  analyze df = Ok rows → (t, m) ∈ rows →
  releases_of df t ≠ [] →
  miss_count df t ≤ length (releases_of df t) →
  in_unit_interval (miss_ratio m).
Proof.
  intros df rows t m Hrows Hin Hne Hle.
  destruct (analyze_task_names _ _ _ Hrows Hin) as [Ht Hsum]. simpl in Ht, Hsum.
  destruct (summarize_Ok _ _ _ _ _ _ Hsum) as (_ & _ & _ & Hratio & _).
  simpl in Hratio. rewrite get_releases_map, decide_True in Hratio by done.
  assert (0 < length (releases_of df t)) by (destruct (releases_of df t); simpl; [done|lia]).
  rewrite bool_decide_eq_true_2 in Hratio by done.
  destruct (int_truediv_unit_interval (Z.of_nat (miss_count df t))
              (Z.of_nat (length (releases_of df t)))) as (k & Hk & Hb); [lia..|].
  rewrite Hk in Hratio. simpl in Hratio.
  destruct (py_round_unit_interval k 3 Hb) as (k' & Hk' & Hb').
  rewrite Hk' in Hratio. injection Hratio as <-.
  unfold in_unit_interval. rewrite of_int_0, of_int_1. simpl. lia.
Qed.

Lemma C4_miss_ratio_in_unit_interval_witness :
  in_unit_interval (Finite (2 ^ 1073)).
Proof.
  pose (m := {| avg_exec_time_ms := NaN; avg_response_ms := NaN;
                miss_ratio := Finite (2 ^ 1073); total_exec_time_ms := 0;
                release_count := 2 |}).
  refine (C4_miss_ratio_in_unit_interval scenario_one_miss [("T1", m)] "T1" m _ _ _ _).
  - vm_compute. reflexivity.
  - apply list_elem_of_here.
  - vm_compute. discriminate.
  - vm_compute. lia.
Defined.

(** C8. In every row of the summary, an empty executions list gives the
    mean execution NaN, which is not 0.0, and an empty responses list
    gives the mean response NaN; the total execution time is the sum of
    the executions, unchanged by the rounding to 2 decimals, and is 0
    when there are none. *)
Theorem C8_empty_mean_undefined_total_zero : ∀ em rm lm df rows t m,
  analyze_from_lists em rm lm df = Ok rows → (t, m) ∈ rows →
  (dict_get t em [] = [] →
     avg_exec_time_ms m = NaN ∧ avg_exec_time_ms m ≠ of_int 0) ∧
  (dict_get t rm [] = [] →
     avg_response_ms m = NaN ∧ avg_response_ms m ≠ of_int 0) ∧
  total_exec_time_ms m = int_round (foldr Z.add 0%Z (dict_get t em [])) 2 ∧
  total_exec_time_ms m = foldr Z.add 0%Z (dict_get t em []) ∧
  (dict_get t em [] = [] → total_exec_time_ms m = 0%Z).
Proof.
  intros em rm lm df rows t m Hrows Hin.
  destruct (analyze_from_lists_row _ _ _ _ _ _ Hrows Hin) as [_ Hsum].
  destruct (summarize_Ok _ _ _ _ _ _ Hsum) as (_ & He & Hr & _ & Htot & _).
  simpl in He, Hr, Htot. rewrite py_sum_foldr in Htot.
  split_and!; try done.
  - intros Hnil. rewrite Hnil in He. injection He as <-.
    split; [done|]. apply not_eq_sym, of_int_not_nan.
  - intros Hnil. rewrite Hnil in Hr. injection Hr as <-.
    split; [done|]. apply not_eq_sym, of_int_not_nan.
  - intros Hnil. by rewrite Htot, Hnil.
Qed.

Lemma C8_empty_mean_undefined_total_zero_witness :
  (([] : list Z) = [] → NaN = NaN ∧ NaN ≠ of_int 0) ∧
  (([] : list Z) = [] → NaN = NaN ∧ NaN ≠ of_int 0) ∧
  0%Z = int_round (foldr Z.add 0%Z []) 2 ∧
  0%Z = foldr Z.add 0%Z [] ∧
  (([] : list Z) = [] → 0%Z = 0%Z).
Proof.
  pose (m := {| avg_exec_time_ms := NaN; avg_response_ms := NaN;
                miss_ratio := of_int 2; total_exec_time_ms := 0;
                release_count := 0 |}).
  refine (C8_empty_mean_undefined_total_zero
            [("T1", [])] [("T1", [])] [("T1", [])]
            scenario_two_misses [("T1", m)] "T1" m _ _).
  - vm_compute. reflexivity.
  - apply list_elem_of_here.
Defined.

(** C9. For every frame, none of the names WDT, INFO and Supervisor is a
    key of the executions, responses or releases map, and none is the
    task of a row of the summary. *)
Theorem C9_infrastructure_excluded : ∀ df t,
  t ∈ ["WDT"; "INFO"; "Supervisor"] →
  let lists := build_task_execution_lists df in
  (t ∉ dict_keys (exec_map lists)) ∧
  (t ∉ dict_keys (resp_map lists)) ∧
  (t ∉ dict_keys (releases_map lists)) ∧
  ∀ rows, analyze df = Ok rows → t ∉ rows.*1.
Proof.
  intros df t Hinfra. cbv zeta.
  assert (Hnot : t ∉ task_names df).
  { intros [Hn _]%task_names_elem_of. by apply Hn. }
  destruct (build_maps df) as (-> & -> & -> & _).
  rewrite !dict_keys_entries. split_and!; try done.
  intros rows Hrows [row [-> Hin]]%list_elem_of_fmap.
  by destruct (analyze_task_names _ _ _ Hrows Hin) as [Ht _].
Qed.

Lemma C9_infrastructure_excluded_witness :
  let lists := build_task_execution_lists scenario_mixed in
  dict_keys (exec_map lists) = ["T1"] ∧
  ("WDT" ∉ dict_keys (exec_map lists)) ∧
  ("WDT" ∉ dict_keys (resp_map lists)) ∧
  ("WDT" ∉ dict_keys (releases_map lists)) ∧
  ∀ rows, analyze scenario_mixed = Ok rows → "WDT" ∉ rows.*1.
Proof.
  split; [vm_compute; reflexivity|].
  refine (C9_infrastructure_excluded scenario_mixed "WDT" _).
  apply list_elem_of_here.
Defined.

(** * The watchdog estimate's claims *)







(** * Further properties of the reconciler *)

Lemma times_of_Permutation k t (df df' : DataFrame) :
  df ≡ₚ df' →
  times_of k (sort_values (where_task t df)) = times_of k (sort_values (where_task t df')).
Proof.
  intros Hp. rewrite !times_of_sort_values.
  apply (StronglySorted_unique Z.le); [apply StronglySorted_merge_sort; apply _..|].
  rewrite !merge_sort_Permutation. unfold times_of, where_event, where_task.
  by rewrite Hp.
Qed.

Lemma task_names_Permutation (df df' : DataFrame) t :
  df ≡ₚ df' → t ∈ task_names df ↔ t ∈ task_names df'.
Proof.
  intros Hp. rewrite !task_names_elem_of.
  split; intros [Hn (r & Hr & Ht)]; (split; [done|]); exists r; split; try done.
  - by rewrite <- Hp.
  - by rewrite Hp.
Qed.

(** X1. Reordering the rows of a frame changes no task's executions,
    responses or releases: only the timestamps, kinds and task names of
    the rows matter, not the order in which the log lists them. *)
Theorem X1_row_order_irrelevant : ∀ (df df' : DataFrame) t,
  df ≡ₚ df' →
  let a := build_task_execution_lists df in
  let b := build_task_execution_lists df' in
  dict_get t (exec_map a) [] = dict_get t (exec_map b) [] ∧
  dict_get t (resp_map a) [] = dict_get t (resp_map b) [] ∧
  dict_get t (releases_map a) [] = dict_get t (releases_map b) [].
Proof.
  intros df df' t Hp. cbv zeta.
  rewrite !get_exec_map, !get_resp_map, !get_releases_map.
  unfold execs_of, resps_of, releases_of, completes_of, starts_of.
  rewrite !(times_of_Permutation _ t df df' Hp).
  destruct (decide (t ∈ task_names df)) as [Hin|Hin].
  - rewrite !decide_True by (by apply (task_names_Permutation df df')). done.
  - rewrite !decide_False by (by rewrite <- (task_names_Permutation df df')). done.
Qed.

Lemma X1_row_order_irrelevant_witness :
  let a := build_task_execution_lists (reverse scenario_out_of_order) in
  let b := build_task_execution_lists scenario_out_of_order in
  dict_get "T1" (exec_map a) [] = dict_get "T1" (exec_map b) [] ∧
  dict_get "T1" (resp_map a) [] = dict_get "T1" (resp_map b) [] ∧
  dict_get "T1" (releases_map a) [] = dict_get "T1" (releases_map b) [].
Proof.
  apply (X1_row_order_irrelevant (reverse scenario_out_of_order) scenario_out_of_order "T1").
  apply reverse_Permutation.
Defined.

Lemma foldl_pair_step_zip (warn : Z → Z → Warning) (starts cs : list Z) :
  Forall2 Z.le starts cs →
  ∀ pre extra st,
    (∀ j, j ∈ used_complete_indices st ↔ j < length pre) →
    samples (foldl (pair_step warn (pre ++ cs ++ extra)) st starts)
      = samples st ++ zip_with (λ s c, (c - s)%Z) starts cs.
Proof.
  induction 1 as [|s c starts cs Hle _ IH]; intros pre extra st Hused; simpl.
  - by rewrite app_nil_r.
  - assert (Hc : (pre ++ (c :: cs) ++ extra) !! length pre = Some c).
    { simpl. by apply list_lookup_middle. }
    rewrite (pair_step_match warn _ st s (length pre)).
    + rewrite (list_lookup_total_correct _ _ _ Hc).
      simpl. rewrite (cons_middle c pre (cs ++ extra)), (app_assoc pre [c]).
      rewrite IH.
      * simpl. by rewrite <- app_assoc.
      * intros j. simpl. rewrite elem_of_union, elem_of_singleton, Hused, length_app.
        simpl. lia.
    + exists c. split_and!; [done..|]. rewrite Hused. lia.
    + intros j Hj (c' & _ & _ & Hn). apply Hn, Hused, Hj.
Qed.

(** X2. When the i-th COMPLETE of a task is not earlier than its i-th
    START, for every START, the first-fit scan pairs them index by
    index: the executions are complete_i - start_i, whatever COMPLETE
    timestamps follow. *)
Theorem X2_clean_trace_pairs_by_index :
  (∀ (warn : Z → Z → Warning) starts cs extra,
     Forall2 Z.le starts cs →
     samples (pair_loop warn (cs ++ extra) starts)
       = zip_with (λ s c, (c - s)%Z) starts cs) ∧
  (∀ df t cs extra,
     t ∈ task_names df →
     completes_of df t = cs ++ extra →
     Forall2 Z.le (starts_of df t) cs →
     dict_get t (exec_map (build_task_execution_lists df)) []
       = zip_with (λ s c, (c - s)%Z) (starts_of df t) cs).
Proof.
  assert (H : ∀ (warn : Z → Z → Warning) starts cs extra,
     Forall2 Z.le starts cs →
     samples (pair_loop warn (cs ++ extra) starts)
       = zip_with (λ s c, (c - s)%Z) starts cs).
  { intros warn starts cs extra Hle. unfold pair_loop.
    apply (foldl_pair_step_zip warn starts cs Hle [] extra pair_init).
    intros j. simpl. split; [set_solver|lia]. }
  split; [exact H|].
  intros df t cs extra Ht Hcs Hle.
  rewrite get_exec_map, decide_True by done.
  unfold execs_of. rewrite Hcs. by apply H.
Qed.

Lemma X2_clean_trace_pairs_by_index_witness :
  dict_get "T1" (exec_map (build_task_execution_lists scenario_clean_trace)) []
    = zip_with (λ s c, (c - s)%Z) (starts_of scenario_clean_trace "T1") [40; 90]%Z.
Proof.
  refine (proj2 X2_clean_trace_pairs_by_index scenario_clean_trace "T1"
            [40; 90]%Z [120]%Z _ _ _).
  - vm_compute. apply list_elem_of_here.
  - vm_compute. reflexivity.
  - change (starts_of scenario_clean_trace "T1") with [10; 50]%Z.
    constructor; [lia|]. constructor; [lia|]. constructor.
Defined.

Lemma times_of_filter_kinds k (P : LogRow → Prop) `{!∀ r, Decision (P r)} t df :
  (∀ r, event r = k → P r) →
  times_of k (sort_values (where_task t (filter P df)))
    = times_of k (sort_values (where_task t df)).
Proof.
  intros HP. rewrite !times_of_sort_values.
  assert (E : where_event k (where_task t (filter P df))
              = where_event k (where_task t df)).
  { unfold where_event, where_task.
    induction df as [|r df IH]; [done|].
    rewrite (filter_cons P). destruct (decide (P r)) as [Hr|Hr].
    - rewrite !(filter_cons (λ r, task r = t)).
      destruct (decide (task r = t)); [|done].
      rewrite !(filter_cons (λ r, event r = k)).
      destruct (decide (event r = k)); [f_equal|]; exact IH.
    - rewrite (filter_cons (λ r, task r = t)).
      destruct (decide (task r = t)); [|exact IH].
      rewrite (filter_cons (λ r, event r = k)).
      destruct (decide (event r = k)) as [Hk|]; [|exact IH]. by destruct Hr; apply HP. }
  unfold times_of. by rewrite E.
Qed.

Lemma task_names_filter (P : LogRow → Prop) `{!∀ r, Decision (P r)} df t :
  t ∈ task_names (filter P df) → t ∈ task_names df.
Proof.
  rewrite !task_names_elem_of. intros [Hn (r & Hr & Ht)]. split; [done|].
  exists r. split; [|done]. by apply list_elem_of_filter in Hr as [_ Hr].
Qed.

Lemma times_of_nil_outside k (P : LogRow → Prop) `{!∀ r, Decision (P r)} t df :
  (∀ r, event r = k → P r) →
  t ∈ task_names df → t ∉ task_names (filter P df) →
  times_of k (sort_values (where_task t df)) = [].
Proof.
  intros HP Hin Hout. rewrite times_of_sort_values.
  assert (Hnil : times_of k (where_task t df) = []); [|by rewrite Hnil].
  unfold times_of, where_event, where_task.
  destruct (filter _ (filter _ df)) as [|r l] eqn:Hf; [done|]. exfalso.
  assert (Hr : r ∈ filter (λ r, event r = k) (filter (λ r, task r = t) df))
    by (rewrite Hf; apply list_elem_of_here).
  apply list_elem_of_filter in Hr as [Hk Hr].
  apply list_elem_of_filter in Hr as [Ht Hr].
  apply Hout, task_names_elem_of. split.
  - apply task_names_elem_of in Hin. tauto.
  - exists r. split; [|done]. apply list_elem_of_filter. auto.
Qed.

Lemma pair_loop_nil_points (warn : Z → Z → Warning) completes :
  samples (pair_loop warn completes []) = [].
Proof. done. Qed.

(** X3. The responses of every task are the same when every row other
    than the RELEASE and COMPLETE rows is removed from the frame, and the
    executions are the same when every row other than the START and
    COMPLETE rows is removed: START rows never influence a response, and
    RELEASE and MISS rows never influence an execution. *)
Theorem X3_pairings_depend_on_their_rows : ∀ df t,
  dict_get t (resp_map (build_task_execution_lists (response_rows df))) []
    = dict_get t (resp_map (build_task_execution_lists df)) [] ∧
  dict_get t (exec_map (build_task_execution_lists (execution_rows df))) []
    = dict_get t (exec_map (build_task_execution_lists df)) [].
Proof.
  intros df t. rewrite !get_exec_map, !get_resp_map.
  unfold response_rows, execution_rows. split.
  - destruct (decide (t ∈ task_names (filter _ df))) as [Hin|Hout].
    + rewrite decide_True by (by eapply task_names_filter).
      unfold resps_of, completes_of, releases_of.
      rewrite !times_of_filter_kinds by naive_solver. done.
    + destruct (decide (t ∈ task_names df)) as [Hin|]; [|done].
      unfold resps_of, releases_of.
      rewrite (times_of_nil_outside RELEASE (λ r, event r = RELEASE ∨ event r = COMPLETE) t df)
        by (done || naive_solver). done.
  - destruct (decide (t ∈ task_names (filter _ df))) as [Hin|Hout].
    + rewrite decide_True by (by eapply task_names_filter).
      unfold execs_of, completes_of, starts_of.
      rewrite !times_of_filter_kinds by naive_solver. done.
    + destruct (decide (t ∈ task_names df)) as [Hin|]; [|done].
      unfold execs_of, starts_of.
      rewrite (times_of_nil_outside START (λ r, event r = START ∨ event r = COMPLETE) t df)
        by (done || naive_solver). done.
Qed.

(** * Further properties of the summary *)

Lemma int_truediv_Raise a b e :
  int_truediv a b = Raise e →
  (b = 0%Z ∧ e = ZeroDivisionError) ∨ (b ≠ 0%Z ∧ e = OverflowError).
Proof.
  unfold int_truediv. destruct (Z.eqb_spec b 0); [intros [= <-]; by left|].
  destruct (round_units _ _); [done|intros [= <-]; by right..].
Qed.

Lemma int_truediv_Ok_finite a b q :
  int_truediv a b = Ok q → ∃ k, q = Finite k.
Proof.
  unfold int_truediv. destruct (Z.eqb_spec b 0); [done|].
  destruct (round_units _ _); [|done..]. intros [= <-]. eauto.
Qed.

Lemma round_units_not_nan n d : round_units n d ≠ NaN.
Proof. unfold round_units. by case_match. Qed.

Lemma py_round_finite_not_nan k ndigits : py_round (Finite k) ndigits ≠ NaN.
Proof. unfold py_round. apply round_units_not_nan. Qed.

Lemma mean_or_nan_Raise xs e : mean_or_nan xs = Raise e → e = OverflowError.
Proof.
  destruct xs as [|x xs]; [done|]. unfold mean_or_nan.
  destruct (int_truediv _ _) as [q|e'] eqn:Hd; [done|]. simpl. intros [= <-].
  apply int_truediv_Raise in Hd as [[Hz _]|[_ ->]]; [|done]. simpl in Hz. lia.
Qed.

Lemma mean_or_nan_NaN xs v : mean_or_nan xs = Ok v → v = NaN ↔ xs = [].
Proof.
  destruct xs as [|x xs]; [intros [= <-]; done|]. unfold mean_or_nan.
  destruct (int_truediv _ _) as [q|e'] eqn:Hd; [|done]. simpl. intros [= <-].
  apply int_truediv_Ok_finite in Hd as [k ->].
  split; [|done]. intros H. by apply py_round_finite_not_nan in H.
Qed.

Lemma summarize_Raise em rm lm df t e :
  summarize em rm lm df t = Raise e → e = OverflowError.
Proof.
  unfold summarize. cbv zeta.
  destruct (mean_or_nan (dict_get t em [])) as [ae|e1] eqn:H1; simpl;
    [|intros [= <-]; by eapply mean_or_nan_Raise].
  destruct (mean_or_nan (dict_get t rm [])) as [ar|e2] eqn:H2; simpl;
    [|intros [= <-]; by eapply mean_or_nan_Raise].
  destruct (int_truediv _ _) as [q|e3] eqn:H3; simpl; [done|]. intros [= <-].
  apply int_truediv_Raise in H3 as [[Hz _]|[_ ->]]; [|done].
  case_bool_decide; lia.
Qed.

Lemma collect_Raise {A B} (f : A → Result B) (l : list A) e :
  collect f l = Raise e → ∃ a, a ∈ l ∧ f a = Raise e.
Proof.
  induction l as [|a l IH]; simpl; [done|].
  destruct (f a) as [b|e'] eqn:Hb; simpl.
  - destruct (collect f l) as [bs|e'']; simpl; [done|]. intros [= <-].
    destruct IH as (a' & Hin & Ha'); [done|]. exists a'. split; [|done].
    apply elem_of_cons. auto.
  - intros [= <-]. exists a. split; [apply list_elem_of_here|done].
Qed.

Lemma collect_Ok_nil {A B} (f : A → Result B) (l : list A) :
  collect f l = Ok [] → l = [].
Proof.
  destruct l as [|a l]; [done|]. simpl.
  destruct (f a); simpl; [|done]. by destruct (collect f l).
Qed.

Lemma analyze_keys df rows : analyze df = Ok rows → rows.*1 = task_names df.
Proof.
  unfold analyze. intros Hrows%analyze_from_lists_rows.
  destruct (build_maps df) as (He & _). rewrite He, dict_keys_entries in Hrows.
  clear He. induction Hrows as [|t row l rows' Hrow _ IH]; [done|].
  rewrite fmap_cons. f_equal; [|done].
  by destruct (summarize_Ok _ _ _ _ _ _ Hrow) as [-> _].
Qed.

(** X4. [analyze_from_lists] raises [KeyError] exactly when the
    executions map has no key, which for a frame means that it has no
    task besides WDT, INFO and Supervisor (an empty log, or a log of
    watchdog rows only); it never raises [ZeroDivisionError], whatever
    the maps and the frame. *)
Theorem X4_summary_errors : ∀ em rm lm df,
  (analyze_from_lists em rm lm df = Raise KeyError ↔ em = []) ∧
  analyze_from_lists em rm lm df ≠ Raise ZeroDivisionError ∧
  (analyze df = Raise KeyError ↔ task_names df = []).
Proof.
  assert (H : ∀ em rm lm df,
    (analyze_from_lists em rm lm df = Raise KeyError ↔ em = []) ∧
    analyze_from_lists em rm lm df ≠ Raise ZeroDivisionError).
  { intros em rm lm df. unfold analyze_from_lists.
    destruct (collect _ (dict_keys em)) as [rows|e] eqn:Hc; simpl.
    - destruct rows as [|row rows].
      + apply collect_Ok_nil in Hc. split; [|done].
        split; [intros _; by destruct em|done].
      + split; [|done]. split; [done|]. intros ->. done.
    - apply collect_Raise in Hc as (t & Ht & Hs).
      apply summarize_Raise in Hs as ->. split; [|done].
      split; [done|]. intros ->. by apply elem_of_nil in Ht. }
  intros em rm lm df. destruct (H em rm lm df) as [H1 H2]. split_and!; [done..|].
  unfold analyze. rewrite (proj1 (H _ _ _ _)).
  destruct (build_maps df) as (-> & _).
  split; [intros Hnil|intros ->; done].
  by destruct (task_names df).
Qed.

(** X5. When [analyze] returns, its rows are those of the tasks of the
    frame, one row each, in the order in which the tasks first appear;
    the release count of a row is the number of RELEASE rows of its task,
    and a mean is NaN exactly when its task has no sample of that kind. *)
Theorem X5_summary_rows : ∀ df rows,
  analyze df = Ok rows →
  rows.*1 = task_names df ∧ NoDup rows.*1 ∧
  ∀ t m, (t, m) ∈ rows →
    let lists := build_task_execution_lists df in
    release_count m = length (where_event RELEASE (where_task t df)) ∧
    (avg_exec_time_ms m = NaN ↔ dict_get t (exec_map lists) [] = []) ∧
    (avg_response_ms m = NaN ↔ dict_get t (resp_map lists) [] = []).
Proof.
  intros df rows Hrows. pose proof (analyze_keys df rows Hrows) as Hkeys.
  split; [done|]. split; [rewrite Hkeys; apply task_names_NoDup|].
  intros t m Hin. cbv zeta.
  destruct (analyze_task_names _ _ _ Hrows Hin) as [Ht Hsum]. simpl in Ht, Hsum.
  destruct (summarize_Ok _ _ _ _ _ _ Hsum) as (_ & He & Hr & _ & _ & Hc).
  simpl in He, Hr, Hc. split_and!.
  - rewrite Hc, get_releases_map, decide_True by done.
    unfold releases_of, times_of, where_event, sort_values.
    rewrite length_fmap. apply Permutation_length.
    by rewrite merge_sort_Permutation.
  - by apply mean_or_nan_NaN.
  - by apply mean_or_nan_NaN.
Qed.

Lemma X5_summary_rows_witness :
  ∃ rows, analyze scenario_mixed = Ok rows ∧ rows.*1 = ["T1"] ∧ NoDup rows.*1.
Proof.
  pose (m := {| avg_exec_time_ms := of_int 30; avg_response_ms := of_int 40;
                miss_ratio := of_int 0; total_exec_time_ms := 30;
                release_count := 1 |}).
  assert (H : analyze scenario_mixed = Ok [("T1", m)]) by (vm_compute; reflexivity).
  exists [("T1", m)]. split; [exact H|].
  destruct (X5_summary_rows scenario_mixed [("T1", m)] H) as (H1 & H2 & _).
  split; [exact H1|exact H2].
Defined.

(** X6. For a frame with at least one task, whose timestamps lie between
    0 and 2^1023 and which has at most 2^1023 rows, [analyze] returns a
    summary: no entry of any row overflows. *)
Theorem X6_summary_returned : ∀ df,
  task_names df ≠ [] →
  (∀ r, r ∈ df → (0 ≤ time_ms r ≤ 2 ^ 1023)%Z) →
  (Z.of_nat (length df) ≤ 2 ^ 1023)%Z →
  ∃ rows, analyze df = Ok rows ∧ rows.*1 = task_names df.
Proof.
  intros df Hne Hdf Hlen. unfold analyze, analyze_from_lists.
  destruct (build_maps df) as (He & Hr & Hl & _). rewrite He, Hr, Hl.
  rewrite dict_keys_entries.
  destruct (collect_Ok
    (summarize ((λ t, (t, execs_of df t)) <$> task_names df)
               ((λ t, (t, resps_of df t)) <$> task_names df)
               ((λ t, (t, releases_of df t)) <$> task_names df) df)
    (task_names df)) as [rows Hrows].
  { apply Forall_forall. intros t Ht. unfold summarize. cbv zeta.
    rewrite !dict_get_entries, !decide_True by done.
    destruct (execs_of_first_fit df t) as (me & Hme & ->).
    destruct (resps_of_first_fit df t) as (mr & Hmr & ->).
    destruct (mean_or_nan_Ok (durations (completes_of df t) me)) as [ae ->].
    { eapply first_fit_durations_bounded; [| |done]; by apply times_of_bounded. }
    destruct (mean_or_nan_Ok (durations (completes_of df t) mr)) as [ar ->].
    { eapply first_fit_durations_bounded; [| |done]; by apply times_of_bounded. }
    simpl.
    destruct (int_truediv_Ok
      (Z.of_nat (length (where_event MISS (where_task t df))))
      (Z.of_nat (if bool_decide (0 < length (releases_of df t))%nat
                 then length (releases_of df t) else 1%nat))) as [k ->].
    { case_bool_decide; lia. }
    { pose proof (miss_count_le df t) as Hm. unfold miss_count in Hm.
      case_bool_decide; nia. }
    simpl. eauto. }
  rewrite Hrows. simpl. pose proof (collect_Forall2 _ _ _ Hrows) as Hf2.
  assert (Hkeys : rows.*1 = task_names df).
  { clear Hrows. induction Hf2 as [|t row l rows' Hrow _ IH]; [done|].
    rewrite fmap_cons. f_equal; [|done].
    by destruct (summarize_Ok _ _ _ _ _ _ Hrow) as [-> _]. }
  destruct rows as [|row rows']; [by rewrite <- Hkeys in Hne|]. eauto.
Qed.

Lemma X6_summary_returned_witness :
  ∃ rows, analyze scenario_mixed = Ok rows ∧ rows.*1 = task_names scenario_mixed.
Proof.
  apply X6_summary_returned.
  - vm_compute. discriminate.
  - intros r Hr. assert (0 ≤ time_ms r ≤ 50)%Z; [|lia].
    repeat (apply elem_of_cons in Hr as [->|Hr]; [simpl; lia|]).
    by apply elem_of_nil in Hr.
  - simpl. lia.
Defined.

(** * Properties of [parse_log] *)

(** The rows that Python's [re] and [int] give for the sample lines. *)
Example parse_log_samples : parse_log 4300 sample_lines = Some sample_rows.
Proof. vm_compute. reflexivity. Qed.

(** ** Character classes *)

Lemma digit_is_word c : is_digit c = true → is_word c = true.
Proof. destruct c as [[] [] [] [] [] [] [] []]; vm_compute; done. Qed.

Lemma digit_not_space c : is_digit c = true → is_space c = false.
Proof. destruct c as [[] [] [] [] [] [] [] []]; vm_compute; done. Qed.

Lemma word_not_space c : is_word c = true → is_space c = false.
Proof. destruct c as [[] [] [] [] [] [] [] []]; vm_compute; done. Qed.

Lemma digit_value_bounds c : is_digit c = true → (0 ≤ digit_value c ≤ 9)%Z.
Proof. destruct c as [[] [] [] [] [] [] [] []]; vm_compute; intros; split; congruence. Qed.

(** ** The matcher *)

Lemma eat_Some text s rest : eat text s = Some rest ↔ s = text ++ rest.
Proof.
  revert s. induction text as [|a text IH]; intros s; simpl; [naive_solver|].
  destruct s as [|b s]; [naive_solver|].
  destruct (Ascii.eqb_spec a b) as [->|Hne].
  - rewrite IH. naive_solver.
  - naive_solver.
Qed.

Lemma eat_app text rest : eat text (text ++ rest) = Some rest.
Proof. by apply eat_Some. Qed.

Lemma greedy_inv {A} cls s (k : list ascii → list ascii → option A) a :
  greedy cls s k = Some a →
  ∃ m rest, s = m ++ rest ∧ Forall (λ c, cls c = true) m ∧ k m rest = Some a.
Proof.
  revert k. induction s as [|c s IH]; intros k; simpl.
  - intros H. by exists [], [].
  - destruct (cls c) eqn:Hc; [|intros H; by exists [], (c :: s)].
    destruct (greedy cls s _) as [a'|] eqn:Hg.
    + intros [= ->]. apply IH in Hg as (m & rest & -> & Hm & Hk).
      exists (c :: m), rest. split_and!; [done| by constructor | done].
    + intros H. by exists [], (c :: s).
Qed.

(** A class repeated greedily stops at the end of the run of its
    characters when the rest of the pattern matches from there. *)
Lemma greedy_max {A} cls m rest (k : list ascii → list ascii → option A) a :
  Forall (λ c, cls c = true) m →
  match rest with [] => True | c :: _ => cls c = false end →
  k m rest = Some a →
  greedy cls (m ++ rest) k = Some a.
Proof.
  intros Hm Hrest. revert k. induction Hm as [|c m Hc _ IH]; intros k Hk; simpl.
  - destruct rest as [|c rest]; [done|]. simpl. by rewrite Hrest.
  - rewrite Hc. by rewrite (IH (λ m0 rest0, k (c :: m0) rest0) Hk).
Qed.

Lemma run_Plus_inv {A} cls s g (k : list ascii → list ascii → list (list ascii) → option A) a :
  run (Plus cls) s g k = Some a →
  ∃ m rest, m ≠ [] ∧ s = m ++ rest ∧ Forall (λ c, cls c = true) m ∧ k m rest g = Some a.
Proof.
  simpl. destruct s as [|c s]; [done|]. destruct (cls c) eqn:Hc; [|done].
  intros (m & rest & -> & Hm & Hk)%greedy_inv.
  exists (c :: m), rest. split_and!; [done..| by constructor | done].
Qed.

Lemma run_Plus_max {A} cls m rest g
    (k : list ascii → list ascii → list (list ascii) → option A) a :
  m ≠ [] → Forall (λ c, cls c = true) m →
  match rest with [] => True | c :: _ => cls c = false end →
  k m rest g = Some a →
  run (Plus cls) (m ++ rest) g k = Some a.
Proof.
  intros Hne Hm Hrest Hk. destruct m as [|c m]; [done|].
  apply Forall_cons in Hm as [Hc Hm]. simpl. rewrite Hc.
  by apply (greedy_max cls m rest (λ m0 rest0, k (c :: m0) rest0 g)).
Qed.

Lemma run_Lit_app {A} text rest g
    (k : list ascii → list ascii → list (list ascii) → option A) :
  run (Lit text) (text ++ rest) g k = k text rest g.
Proof. simpl. by rewrite eat_app. Qed.

Lemma run_Lit_inv {A} text s g
    (k : list ascii → list ascii → list (list ascii) → option A) a :
  run (Lit text) s g k = Some a → ∃ rest, s = text ++ rest ∧ k text rest g = Some a.
Proof.
  simpl. destruct (eat text s) as [rest|] eqn:He; [|done].
  apply eat_Some in He. eauto.
Qed.

Lemma run_Seq {A} r1 r2 s g (k : list ascii → list ascii → list (list ascii) → option A) :
  run (Seq r1 r2) s g k =
  run r1 s g (λ m1 rest1 g1, run r2 rest1 g1 (λ m2 rest2 g2, k (m1 ++ m2) rest2 g2)).
Proof. done. Qed.

Lemma run_Group {A} r s g (k : list ascii → list ascii → list (list ascii) → option A) :
  run (Group r) s g k = run r s g (λ m rest g', k m rest (g' ++ [m])).
Proof. done. Qed.

Lemma run_Alt_inv {A} r1 r2 s g
    (k : list ascii → list ascii → list (list ascii) → option A) a :
  run (Alt r1 r2) s g k = Some a → run r1 s g k = Some a ∨ run r2 s g k = Some a.
Proof. simpl. destruct (run r1 s g k); [intros [= ->]; by left | by right]. Qed.

Lemma run_Opt_inv {A} r s g
    (k : list ascii → list ascii → list (list ascii) → option A) a :
  run (Opt r) s g k = Some a → run r s g k = Some a ∨ k [] s g = Some a.
Proof. simpl. destruct (run r s g k); [intros [= ->]; by left | by right]. Qed.

Lemma run_Star_inv {A} cls s g
    (k : list ascii → list ascii → list (list ascii) → option A) a :
  run (Star cls) s g k = Some a →
  ∃ m rest, s = m ++ rest ∧ Forall (λ c, cls c = true) m ∧ k m rest g = Some a.
Proof. simpl. apply greedy_inv. Qed.

Lemma run_Star_max {A} cls m rest g
    (k : list ascii → list ascii → list (list ascii) → option A) a :
  Forall (λ c, cls c = true) m →
  match rest with [] => True | c :: _ => cls c = false end →
  k m rest g = Some a →
  run (Star cls) (m ++ rest) g k = Some a.
Proof. intros. simpl. by apply (greedy_max cls m rest (λ m0 rest0, k m0 rest0 g)). Qed.

(** ** The line pattern *)

(** What a match of the line pattern looks like: digits, a comma, a kind
    name, a comma, word characters, possibly a comma, word characters. *)
Lemma line_pattern_inv {A} s (k : list ascii → list ascii → list (list ascii) → option A) a :
  run line_pattern s [] k = Some a →
  ∃ t kd name sep ex rest,
    s = t ++ chars "," ++ kind_name kd ++ chars "," ++ name ++ sep ++ ex ++ rest ∧
    t ≠ [] ∧ Forall (λ c, is_digit c = true) t ∧
    name ≠ [] ∧ Forall (λ c, is_word c = true) name ∧
    Forall (λ c, is_word c = true) ex ∧
    k (t ++ chars "," ++ kind_name kd ++ chars "," ++ name ++ sep ++ ex) rest
      [t; kind_name kd; name; ex] = Some a.
Proof.
  unfold line_pattern. rewrite run_Seq, run_Group.
  intros (t & s1 & Ht & -> & Hdig & H)%run_Plus_inv. cbv beta in H.
  rewrite run_Seq in H. apply run_Lit_inv in H as (s2 & -> & H). cbv beta in H.
  rewrite run_Seq, run_Group in H.
  assert (∃ kd s3, s2 = kind_name kd ++ s3 ∧
    run (Seq (Lit (chars ","))
          (Seq (Group (Plus is_word)) (Seq (Opt (Lit (chars ","))) (Group (Star is_word)))))
        s3 (([] ++ [t]) ++ [kind_name kd])
        (λ m2 rest2 g2, k (t ++ chars "," ++ kind_name kd ++ m2) rest2 g2) = Some a)
    as (kd & s3 & -> & H').
  { repeat (apply run_Alt_inv in H as [H|H];
            [apply run_Lit_inv in H as (s3 & -> & H); cbv beta in H;
             eexists _, s3; split; [reflexivity|exact H] |]).
    apply run_Lit_inv in H as (s3 & -> & H). cbv beta in H.
    eexists _, s3; split; [reflexivity|exact H]. }
  clear H. rename H' into H.
  rewrite run_Seq in H. apply run_Lit_inv in H as (s4 & -> & H). cbv beta in H.
  rewrite run_Seq, run_Group in H.
  apply run_Plus_inv in H as (name & s5 & Hname & -> & Hword & H). cbv beta in H.
  rewrite run_Seq in H.
  assert (∃ sep s6, s5 = sep ++ s6 ∧
    run (Group (Star is_word)) s6 ((([] ++ [t]) ++ [kind_name kd]) ++ [name])
        (λ m2 rest2 g2,
           k (t ++ chars "," ++ kind_name kd ++ chars "," ++ name ++ sep ++ m2) rest2 g2)
      = Some a) as (sep & s6 & -> & H').
  { apply run_Opt_inv in H as [H|H].
    - apply run_Lit_inv in H as (s6 & -> & H). cbv beta in H.
      exists (chars ","), s6. split; [done|]. exact H.
    - cbv beta in H. exists [], s5. split; [done|]. exact H. }
  clear H. rename H' into H. rewrite run_Group in H.
  apply run_Star_inv in H as (ex & rest & -> & Hex & H). cbv beta in H.
  exists t, kd, name, sep, ex, rest. split_and!; try done.
Qed.

Lemma search_inv r s g :
  search r s = Some g →
  ∃ pre s', s = pre ++ s' ∧ run r s' [] (λ _ _ groups, Some groups) = Some g.
Proof.
  induction s as [|c s IH]; simpl.
  - destruct (run r [] [] _) eqn:Hr; [|done]. intros [= ->]. by exists [], [].
  - destruct (run r (c :: s) [] _) eqn:Hr.
    + intros [= ->]. by exists [], (c :: s).
    + intros (pre & s' & -> & H)%IH. by exists (c :: pre), s'.
Qed.

Lemma kind_of_name_kind_name kd : kind_of_name (kind_name kd) = Some kd.
Proof. by destruct kd. Qed.

Lemma foldl_digits_nonneg t :
  Forall (λ c, is_digit c = true) t → ∀ acc, (0 ≤ acc)%Z →
  (0 ≤ foldl (λ acc c, (10 * acc + digit_value c)%Z) acc t)%Z.
Proof.
  induction 1 as [|c t Hc _ IH]; intros a Ha; simpl; [done|].
  apply IH. pose proof (digit_value_bounds c Hc). lia.
Qed.

Lemma int_of_digits_nonneg t :
  Forall (λ c, is_digit c = true) t → (0 ≤ int_of_digits t)%Z.
Proof. intros. by apply foldl_digits_nonneg. Qed.

(** What a line gives when it gives a row. *)
Lemma parse_line_OneRow limit line r :
  parse_line limit line = OneRow r →
  ∃ t kd name ex,
    r = {| time_ms := int_of_digits t; event := kd;
           task := String.string_of_list_ascii name;
           extra := String.string_of_list_ascii ex |} ∧
    t ≠ [] ∧ Forall (λ c, is_digit c = true) t ∧
    (limit = 0 ∨ length t ≤ limit) ∧
    name ≠ [] ∧ Forall (λ c, is_word c = true) name ∧
    Forall (λ c, is_word c = true) ex.
Proof.
  unfold parse_line.
  destruct (search line_pattern (strip line)) as [g|] eqn:Hs; [|done].
  apply search_inv in Hs as (pre & s' & _ & Hrun).
  apply line_pattern_inv in Hrun
    as (t & kd & name & sep & ex & rest & _ & Ht & Hdig & Hname & Hword & Hex & [= <-]).
  rewrite kind_of_name_kind_name.
  destruct (0 <? limit) eqn:H0; destruct (limit <? length t) eqn:H1; simpl; try done;
    intros [= <-]; exists t, kd, name, ex; split_and!; try done.
  - apply Nat.ltb_ge in H1. by right.
  - apply Nat.ltb_ge in H0. left. lia.
  - apply Nat.ltb_ge in H0. left. lia.
Qed.

Lemma string_of_list_ascii_nonempty l : l ≠ [] → String.string_of_list_ascii l ≠ "".
Proof. by destruct l. Qed.

(** X7. Every row that [parse_log] returns has a timestamp that is at
    least 0 (a sign in front of the digits is not read), a task name that
    is not empty, and a task name and extra field made of letters, digits
    and underscores only; there are no more rows than lines. *)
Theorem X7_parsed_rows_well_formed : ∀ limit lines df,
  parse_log limit lines = Some df →
  length df ≤ length lines ∧
  Forall (λ r, (0 ≤ time_ms r)%Z ∧ task r ≠ "" ∧
               word_text (task r) ∧ word_text (extra r)) df.
Proof.
  intros limit lines. induction lines as [|line lines IH]; intros df; simpl.
  - intros [= <-]. split; [done|constructor].
  - destruct (parse_line limit line) as [|r|] eqn:Hl; [| |done].
    + intros [Hlen Hall]%IH. split; [lia|done].
    + destruct (parse_log limit lines) as [df'|]; [|done]. simpl. intros [= <-].
      destruct (IH df' eq_refl) as [Hlen Hall]. split; [simpl; lia|].
      constructor; [|done].
      apply parse_line_OneRow
        in Hl as (t & kd & name & ex & -> & _ & Hdig & _ & Hname & Hword & Hex).
      simpl. unfold word_text, chars.
      rewrite !String.list_ascii_of_string_of_list_ascii.
      split_and!; [by apply int_of_digits_nonneg
                  | by apply string_of_list_ascii_nonempty | done..].
Qed.

Lemma X7_parsed_rows_well_formed_witness :
  length sample_rows ≤ length sample_lines ∧
  Forall (λ r, (0 ≤ time_ms r)%Z ∧ task r ≠ "" ∧
               word_text (task r) ∧ word_text (extra r)) sample_rows.
Proof.
  apply (X7_parsed_rows_well_formed 4300 sample_lines sample_rows).
  vm_compute. reflexivity.
Defined.

(** ** A well-formed record is recovered *)

Lemma kind_alternation_app {A} kd rest g
    (k : list ascii → list ascii → list (list ascii) → option A) a :
  k (kind_name kd) rest g = Some a →
  run (Alt (Lit (kind_name START))
      (Alt (Lit (kind_name COMPLETE))
      (Alt (Lit (kind_name RELEASE))
      (Alt (Lit (kind_name MISS))
      (Alt (Lit (kind_name WDT_PET))
           (Lit (kind_name INFO)))))))
      (kind_name kd ++ rest) g k = Some a.
Proof. intros H. destruct kd; simpl in *; by rewrite H. Qed.

Lemma run_Opt_Lit_None {A} text s g
    (k : list ascii → list ascii → list (list ascii) → option A) :
  eat text s = None → run (Opt (Lit text)) s g k = k [] s g.
Proof. intros H. simpl. by rewrite H. Qed.

Lemma line_pattern_fields t kd name sep ex post :
  t ≠ [] → Forall (λ c, is_digit c = true) t →
  name ≠ [] → Forall (λ c, is_word c = true) name →
  Forall (λ c, is_word c = true) ex →
  ((sep = chars "," ∧ ends_field post) ∨ (sep = [] ∧ ex = [] ∧ ends_record post)) →
  run line_pattern
      (t ++ chars "," ++ kind_name kd ++ chars "," ++ name ++ sep ++ ex ++ post) []
      (λ _ _ groups, Some groups)
    = Some [t; kind_name kd; name; ex].
Proof.
  intros Ht Hdig Hname Hword Hex Hsep. unfold line_pattern.
  rewrite run_Seq, run_Group. apply run_Plus_max; [done..| done |]. cbv beta.
  rewrite run_Seq, run_Lit_app. cbv beta.
  rewrite run_Seq, run_Group. apply kind_alternation_app. cbv beta.
  rewrite run_Seq, run_Lit_app. cbv beta.
  rewrite run_Seq, run_Group. apply run_Plus_max; [done..| |].
  { destruct Hsep as [[-> _]|(-> & -> & Hpost)]; [done|].
    destruct post as [|c post]; [done|]. apply Hpost. }
  cbv beta. rewrite run_Seq.
  destruct Hsep as [[-> Hpost]|(-> & -> & Hpost)].
  - assert (Hopt : ∀ B (k : list ascii → list ascii → list (list ascii) → option B) s g b,
      k (chars ",") s g = Some b → run (Opt (Lit (chars ","))) (chars "," ++ s) g k = Some b).
    { intros B k s g b Hk. simpl in *. by rewrite Hk. }
    apply Hopt. rewrite run_Group. apply run_Star_max; [done| |done].
    destruct post; [done|apply Hpost].
  - assert (He : eat (chars ",") post = None).
    { destruct post as [|c post]; [done|]. destruct Hpost as [_ Hc].
      change (eat (chars ",") (c :: post))
        with (if Ascii.eqb ","%char c then eat [] post else None).
      destruct (Ascii.eqb_spec ","%char c); [by subst|done]. }
    simpl app. rewrite run_Opt_Lit_None by done. rewrite run_Group.
    apply (run_Star_max is_word [] post); [done| |done].
    destruct post; [done|apply Hpost].
Qed.

Lemma search_cons r c s :
  search r (c :: s) =
  match run r (c :: s) [] (λ _ _ groups, Some groups) with
  | Some groups => Some groups
  | None => search r s
  end.
Proof. done. Qed.

Lemma search_found r s g :
  run r s [] (λ _ _ groups, Some groups) = Some g → search r s = Some g.
Proof. intros H. destruct s; simpl; by rewrite H. Qed.

Lemma search_skip pre s :
  Forall (λ c, is_digit c = false) pre →
  search line_pattern (pre ++ s) = search line_pattern s.
Proof.
  induction 1 as [|c pre Hc _ IH]; [done|].
  change ((c :: pre) ++ s) with (c :: (pre ++ s)).
  assert (Hrun : run line_pattern (c :: pre ++ s) [] (λ _ _ groups, Some groups) = None).
  { unfold line_pattern. rewrite run_Seq, run_Group. simpl. by rewrite Hc. }
  rewrite search_cons, Hrun. exact IH.
Qed.

(** ** [strip] *)

Lemma lstrip_suffix s : ∃ sp, s = sp ++ lstrip s.
Proof.
  induction s as [|c s [sp IH]]; simpl; [by exists []|].
  destruct (is_space c); [|by exists []]. exists (c :: sp). simpl. by f_equal.
Qed.

Lemma lstrip_app_cons pre c s :
  is_space c = false → lstrip (pre ++ c :: s) = lstrip pre ++ c :: s.
Proof.
  intros Hc. induction pre as [|b pre IH]; simpl; [by rewrite Hc|].
  by destruct (is_space b).
Qed.

Lemma rstrip_prefix s : ∃ sp, s = rstrip s ++ sp.
Proof.
  unfold rstrip. destruct (lstrip_suffix (reverse s)) as [sp Hsp].
  exists (reverse sp). rewrite <- reverse_app, <- Hsp. by rewrite reverse_involutive.
Qed.

Lemma rstrip_app_snoc s c post :
  is_space c = false → rstrip (s ++ c :: post) = s ++ c :: rstrip post.
Proof.
  intros Hc. unfold rstrip.
  rewrite reverse_app, reverse_cons, <- app_assoc. simpl.
  rewrite lstrip_app_cons by done.
  rewrite reverse_app, reverse_cons, reverse_involutive, <- app_assoc. done.
Qed.

Lemma strip_app pre b body c post :
  is_space b = false → is_space c = false →
  strip (pre ++ b :: body ++ c :: post) = lstrip pre ++ b :: body ++ c :: rstrip post.
Proof.
  intros Hb Hc. unfold strip.
  rewrite lstrip_app_cons by done.
  change (lstrip pre ++ b :: body ++ c :: post)
    with (lstrip pre ++ (b :: body) ++ c :: post).
  rewrite app_assoc, rstrip_app_snoc by done.
  by rewrite <- app_assoc.
Qed.

Lemma strip_middle pre body post :
  (∃ b, head body = Some b ∧ is_space b = false) →
  (∃ c, last body = Some c ∧ is_space c = false) →
  strip (pre ++ body ++ post) = lstrip pre ++ body ++ rstrip post.
Proof.
  intros (b & Hb & Hbs) (c & Hc & Hcs).
  apply last_Some in Hc as [body' ->].
  destruct body' as [|b' body']; simpl in Hb; injection Hb as ->.
  - simpl. unfold strip. rewrite lstrip_app_cons by done.
    by rewrite rstrip_app_snoc.
  - rewrite <- (app_assoc (b :: body') [c] post). simpl.
    rewrite strip_app by done. by rewrite <- app_assoc.
Qed.

Lemma ends_field_rstrip post : ends_field post → ends_field (rstrip post).
Proof.
  destruct (rstrip_prefix post) as [sp Hsp]. intros H.
  destruct (rstrip post) as [|c l]; [done|]. rewrite Hsp in H. exact H.
Qed.

Lemma ends_record_rstrip post : ends_record post → ends_record (rstrip post).
Proof.
  destruct (rstrip_prefix post) as [sp Hsp]. intros H.
  destruct (rstrip post) as [|c l]; [done|]. rewrite Hsp in H. exact H.
Qed.

Lemma Forall_lstrip (P : ascii → Prop) s : Forall P s → Forall P (lstrip s).
Proof.
  destruct (lstrip_suffix s) as [sp Hsp]. intros H. rewrite Hsp in H.
  by apply Forall_app in H as [_ H].
Qed.

Lemma last_word_not_space l c :
  Forall (λ c, is_word c = true) l → last l = Some c → is_space c = false.
Proof.
  intros Hall Hl%last_Some_elem_of. apply word_not_space.
  by apply (proj1 (Forall_forall _ _) Hall).
Qed.

Lemma limit_check limit (t : list ascii) :
  limit = 0 ∨ length t ≤ limit →
  (0 <? limit) && (limit <? length t) = false.
Proof.
  intros [->|Hle]; [done|]. apply andb_false_iff. right. by apply Nat.ltb_ge.
Qed.

Lemma parse_line_fields limit pre t kd name sep ex post :
  Forall (λ c, is_digit c = false) pre →
  t ≠ [] → Forall (λ c, is_digit c = true) t →
  limit = 0 ∨ length t ≤ limit →
  name ≠ [] → Forall (λ c, is_word c = true) name →
  Forall (λ c, is_word c = true) ex →
  ((sep = chars "," ∧ ends_field post) ∨ (sep = [] ∧ ex = [] ∧ ends_record post)) →
  parse_line limit
    (pre ++ (t ++ chars "," ++ kind_name kd ++ chars "," ++ name ++ sep ++ ex) ++ post)
  = OneRow {| time_ms := int_of_digits t; event := kd;
              task := String.string_of_list_ascii name;
              extra := String.string_of_list_ascii ex |}.
Proof.
  intros Hpre Ht Hdig Hlim Hname Hword Hex Hsep. unfold parse_line.
  rewrite strip_middle.
  - rewrite search_skip by (by apply Forall_lstrip).
    rewrite <- !app_assoc.
    rewrite (search_found _ _ [t; kind_name kd; name; ex]).
    + by rewrite limit_check, kind_of_name_kind_name.
    + apply line_pattern_fields; try done.
      destruct Hsep as [[-> Hp]|(-> & -> & Hp)].
      * left. split; [done|]. by apply ends_field_rstrip.
      * right. split_and!; [done..|]. by apply ends_record_rstrip.
  - destruct t as [|d t]; [done|]. exists d. split; [done|].
    apply digit_not_space. by apply Forall_cons in Hdig as [Hd _].
  - rewrite !app_assoc.
    destruct Hsep as [[-> _]|(-> & -> & _)].
    + destruct (last ex) as [c|] eqn:Hl.
      * exists c. rewrite last_app, Hl. split; [done|].
        by apply (last_word_not_space ex).
      * exists ","%char. rewrite last_app, Hl.
        rewrite last_app. split; [done|done].
    + rewrite !app_nil_r. destruct (last name) as [c|] eqn:Hl.
      * exists c. rewrite last_app, Hl. split; [done|].
        by apply (last_word_not_space name).
      * apply last_None in Hl. done.
Qed.

(** X8. A record [digits,KIND,task,extra] is recovered from a line
    whatever text without a digit precedes it and whatever follows it
    from the first character that is not a letter, digit or underscore:
    the row holds the decimal value of the digits, the kind, the task and
    the extra field.  The same holds for a record [digits,KIND,task]
    that is not followed by a comma, with an empty extra field.  The
    timestamp must have no more digits than the interpreter converts. *)
Theorem X8_record_recovered : ∀ limit pre t kd name ex post,
  Forall (λ c, is_digit c = false) pre →
  t ≠ [] → Forall (λ c, is_digit c = true) t →
  limit = 0 ∨ length t ≤ limit →
  name ≠ [] → Forall (λ c, is_word c = true) name →
  Forall (λ c, is_word c = true) ex →
  (ends_field post →
   parse_line limit (pre ++ record4 t kd name ex ++ post)
   = OneRow {| time_ms := int_of_digits t; event := kd;
               task := String.string_of_list_ascii name;
               extra := String.string_of_list_ascii ex |}) ∧
  (ends_record post →
   parse_line limit (pre ++ record3 t kd name ++ post)
   = OneRow {| time_ms := int_of_digits t; event := kd;
               task := String.string_of_list_ascii name;
               extra := "" |}).
Proof.
  intros limit pre t kd name ex post Hpre Ht Hdig Hlim Hname Hword Hex. split.
  - intros Hpost. unfold record4.
    by apply (parse_line_fields limit pre t kd name (chars ",") ex post); auto.
  - intros Hpost. unfold record3.
    pose proof (parse_line_fields limit pre t kd name [] [] post) as H.
    rewrite !app_nil_r in H. apply H; auto.
Qed.

Ltac chars_forall :=
  cbv [chars String.list_ascii_of_string];
  repeat (constructor; [reflexivity|]); constructor.

Lemma X8_record_recovered_witness :
  parse_line 4300 (chars "[rx] " ++ record4 (chars "0042") MISS (chars "T_1") (chars "late")
                     ++ chars "!
")
  = OneRow {| time_ms := int_of_digits (chars "0042"); event := MISS;
              task := "T_1"; extra := "late" |} ∧
  parse_line 4300 (chars "[rx] " ++ record3 (chars "0042") MISS (chars "T_1") ++ chars "
")
  = OneRow {| time_ms := int_of_digits (chars "0042"); event := MISS;
              task := "T_1"; extra := "" |}.
Proof.
  assert (H1 : Forall (λ c, is_digit c = false) (chars "[rx] ")) by chars_forall.
  assert (H2 : chars "0042" ≠ []) by discriminate.
  assert (H3 : Forall (λ c, is_digit c = true) (chars "0042")) by chars_forall.
  assert (H4 : 4300 = 0 ∨ length (chars "0042") ≤ 4300) by (right; simpl; lia).
  assert (H5 : chars "T_1" ≠ []) by discriminate.
  assert (H6 : Forall (λ c, is_word c = true) (chars "T_1")) by chars_forall.
  assert (H7 : Forall (λ c, is_word c = true) (chars "late")) by chars_forall.
  split.
  - apply (proj1 (X8_record_recovered 4300 (chars "[rx] ") (chars "0042") MISS
                    (chars "T_1") (chars "late") (chars "!
") H1 H2 H3 H4 H5 H6 H7)).
    reflexivity.
  - apply (proj2 (X8_record_recovered 4300 (chars "[rx] ") (chars "0042") MISS
                    (chars "T_1") (chars "late") (chars "
") H1 H2 H3 H4 H5 H6 H7)).
    split; [reflexivity|discriminate].
Defined.

(** * Properties of the comparison summary *)

Section Nonneg_facts.
Local Open Scope Z_scope.

Lemma nearest_nonneg n d : 0 ≤ n → 0 < d → 0 ≤ nearest n d.
Proof.
  intros Hn Hd. unfold nearest.
  set (s := Z.max 0 (Z.log2 (n / d) - 52)).
  assert (Hp : 0 < 2 ^ s) by (apply Z.pow_pos_nonneg; lia).
  assert (Hd' : 1 ≤ d * 2 ^ s) by nia.
  destruct (div_half_even_bounds n (d * 2 ^ s) n) as [H0 _]; [lia | lia | nia |].
  nia.
Qed.

Lemma round_units_nonneg n d : 0 ≤ n → 0 < d → nonneg (round_units n d).
Proof.
  intros Hn Hd. unfold round_units. cbv zeta.
  pose proof (nearest_nonneg (Z.abs n) d ltac:(lia) Hd) as Hk.
  destruct (Z.leb_spec overflow_units (Z.abs (Z.sgn n * nearest (Z.abs n) d))).
  - simpl. destruct (Z.ltb_spec n 0); [lia|done].
  - simpl. nia.
Qed.

Lemma fadd_nonneg x y : nonneg x → nonneg y → nonneg (fadd x y).
Proof.
  destruct x as [a|sa|], y as [b|sb|]; unfold fadd; simpl; try done.
  - intros Ha Hb. apply round_units_nonneg; lia.
  - intros -> ->. done.
Qed.

Lemma sums_nonneg l x : sums l x → Forall nonneg l → nonneg x.
Proof.
  induction 1 as [|x|l1 l2 x y _ IH1 _ IH2|l l' x Hp _ IH]; intros Hall.
  - simpl. lia.
  - by apply Forall_cons in Hall as [Hx _].
  - apply Forall_app in Hall as [H1 H2]. apply fadd_nonneg; auto.
  - apply IH. by rewrite Hp.
Qed.

Lemma series_sum_nonneg l : Forall nonneg l → nonneg (series_sum l).
Proof. apply sums_nonneg, series_sum_sums. Qed.

Lemma fdiv_nonneg x p : nonneg x → 0 < p → nonneg (fdiv x (Finite p)).
Proof.
  intros Hx Hp. pose proof one_units_pos.
  destruct x as [a|s|]; unfold fdiv; simpl in Hx; [| |done].
  - destruct (Z.eqb_spec p 0); [lia|].
    rewrite Z.sgn_pos, Z.abs_eq by lia. apply round_units_nonneg; nia.
  - subst. simpl. destruct (Z.ltb_spec p 0); [lia|done].
Qed.

Lemma nonneg_not_nan x : nonneg x → x ≠ NaN.
Proof. by destruct x. Qed.

Lemma dropna_elem_of x col : x ∈ dropna col ↔ x ≠ NaN ∧ x ∈ col.
Proof. unfold dropna. exact (list_elem_of_filter (λ x, x ≠ NaN) col x). Qed.

Lemma dropna_all_nan col : dropna col = [] ↔ Forall (λ x, x = NaN) col.
Proof.
  unfold dropna. induction col as [|x col IH]; [done|].
  rewrite filter_cons, Forall_cons. destruct (decide (x ≠ NaN)) as [Hx|Hx].
  - split; [done|]. by intros [? _].
  - rewrite IH. destruct (decide (x = NaN)); [naive_solver|done].
Qed.

Lemma fill_nan_nonneg col :
  Forall (λ x, x = NaN ∨ nonneg x) col → Forall nonneg (fill_nan col).
Proof.
  unfold fill_nan. intros Hcol. apply Forall_fmap.
  eapply Forall_impl; [exact Hcol|]. intros x [->|Hx]; simpl; [lia|].
  by destruct x.
Qed.

(** The mean of a column whose entries are NaN or at least zero is NaN
    exactly when every entry is NaN. *)
Lemma column_mean_NaN col :
  Forall (λ x, x = NaN ∨ nonneg x) col →
  Z.of_nat (length col) < 2 ^ 53 →
  column_mean col = NaN ↔ Forall (λ x, x = NaN) col.
Proof.
  intros Hcol Hlen. rewrite <- dropna_all_nan.
  unfold column_mean, series_mean. cbv zeta.
  assert (Hl : (length (dropna col) ≤ length col)%nat) by apply length_filter.
  case_bool_decide as Hc.
  - split; [|intros Hd; rewrite Hd in Hc; simpl in Hc; lia].
    intros Hnan. exfalso. revert Hnan. apply nonneg_not_nan.
    rewrite of_int_exact by lia. apply fdiv_nonneg.
    + by apply series_sum_nonneg, fill_nan_nonneg.
    + pose proof one_units_pos. nia.
  - split; [|done]. intros _. destruct (dropna col); [done|simpl in Hc; lia].
Qed.

Lemma int_truediv_nonneg a b q :
  0 ≤ a → 0 < b → int_truediv a b = Ok q → ∃ k, q = Finite k ∧ 0 ≤ k.
Proof.
  intros Ha Hb. pose proof one_units_pos. unfold int_truediv.
  destruct (Z.eqb_spec b 0); [lia|].
  rewrite Z.sgn_pos, Z.mul_1_l, Z.abs_eq by lia.
  pose proof (round_units_nonneg (a * one_units) b ltac:(nia) Hb) as Hn.
  destruct (round_units _ _) as [k| |]; [|done..]. intros [= <-]. eauto.
Qed.

Lemma py_round_nonneg k ndigits : 0 ≤ k → nonneg (py_round (Finite k) ndigits).
Proof.
  intros Hk. pose proof one_units_pos. unfold py_round. cbv zeta.
  set (p := 10 ^ Z.of_nat ndigits).
  assert (Hp : 0 < p) by (apply Z.pow_pos_nonneg; lia).
  assert (Hkp : 0 ≤ k * p) by nia.
  destruct (div_half_even_bounds (k * p) one_units (k * p)) as [H0 _]; [lia|lia|nia|].
  apply round_units_nonneg; nia.
Qed.

Lemma mean_or_nan_nonneg xs v :
  Forall (λ d, 0 ≤ d) xs → mean_or_nan xs = Ok v → v = NaN ∨ nonneg v.
Proof.
  intros Hall. destruct xs as [|x xs]; [intros [= <-]; by left|].
  unfold mean_or_nan.
  destruct (int_truediv _ _) as [q|] eqn:Hd; [|done]. simpl. intros [= <-]. right.
  apply int_truediv_nonneg in Hd as (k & -> & Hk); [by apply py_round_nonneg| |simpl; lia].
  rewrite py_sum_foldr. clear -Hall. induction Hall; simpl; lia.
Qed.

End Nonneg_facts.

Lemma task_names_length df : length (task_names df) ≤ length df.
Proof.
  unfold task_names. etrans; [apply length_filter|].
  unfold unique. rewrite length_reverse.
  etrans; [|by rewrite <- (length_fmap task df), <- (length_reverse (task <$> df))].
  generalize (reverse (task <$> df)). intros l.
  induction l as [|x l IH]; simpl; [done|]. case_decide; simpl; lia.
Qed.

Lemma analyze_columns df rows :
  analyze df = Ok rows →
  rows ≠ [] ∧ length rows ≤ length df ∧
  Forall nonneg (miss_column rows) ∧
  Forall (λ x, x = NaN ∨ nonneg x) (response_column rows) ∧
  (Forall (λ x, x = NaN) (response_column rows) ↔ no_response df).
Proof.
  intros Hrows. pose proof (analyze_keys df rows Hrows) as Hkeys.
  assert (Hrow : ∀ t m, (t, m) ∈ rows →
    avg_response_ms m = NaN
    ↔ dict_get t (resp_map (build_task_execution_lists df)) [] = []).
  { intros t m Hin. destruct (analyze_task_names _ _ _ Hrows Hin) as [_ Hsum].
    destruct (summarize_Ok _ _ _ _ _ _ Hsum) as (_ & _ & Hr & _). simpl in Hr.
    by apply mean_or_nan_NaN. }
  assert (Hne : rows ≠ []).
  { intros ->. simpl in Hkeys. symmetry in Hkeys.
    apply analyze_no_task in Hkeys. by rewrite Hrows in Hkeys. }
  split; [done|]. split.
  { rewrite <- (length_fmap fst rows), Hkeys. apply task_names_length. }
  assert (Hall : ∀ row, row ∈ rows →
    nonneg (miss_ratio row.2) ∧ (avg_response_ms row.2 = NaN ∨ nonneg (avg_response_ms row.2))).
  { intros row Hin.
    destruct (analyze_task_names _ _ _ Hrows Hin) as [Ht Hsum].
    destruct (summarize_Ok _ _ _ _ _ _ Hsum) as (_ & _ & Hr & Hm & _).
    simpl in Hr, Hm. split.
    - destruct (int_truediv _ _) as [q|] eqn:Hd; [|done]. simpl in Hm.
      injection Hm as <-.
      apply int_truediv_nonneg in Hd as (k & -> & Hk);
        [by apply py_round_nonneg | lia | case_bool_decide; lia].
    - eapply mean_or_nan_nonneg; [|exact Hr].
      rewrite get_resp_map. destruct (decide (row.1 ∈ task_names df)); [|done].
      destruct (resps_of_first_fit df row.1) as (mr & Hmr & ->).
      by eapply first_fit_nonneg. }
  split_and!.
  - unfold miss_column. apply Forall_fmap, Forall_forall. intros row Hin.
    by apply Hall.
  - unfold response_column. apply Forall_fmap, Forall_forall. intros row Hin.
    by apply Hall.
  - unfold response_column, no_response. rewrite Forall_fmap, Forall_forall. split.
    + intros H t Ht. rewrite <- Hkeys in Ht.
      apply list_elem_of_fmap in Ht as ([t' m] & -> & Hin).
      apply (Hrow t' m Hin). by apply (H (t', m)).
    + intros H [t m] Hin. simpl. apply (Hrow t m Hin). apply H.
      rewrite <- Hkeys. apply list_elem_of_fmap. by exists (t, m).
Qed.

(** X9. When the script gets as far as its comparison summary on two
    traces of fewer than [2^53] rows each, the miss ratios are always
    compared (the "missing data" branch is never taken for them), and the
    response times are reported as not comparable exactly when one of the
    two traces has no response sample for any of its tasks. *)
Theorem X9_comparison_available : ∀ edf_df rm_df rep,
  compare_runs edf_df rm_df = Ok rep →
  (Z.of_nat (length edf_df) < 2 ^ 53)%Z →
  (Z.of_nat (length rm_df) < 2 ^ 53)%Z →
  miss_verdict rep ≠ Unavailable ∧
  (response_verdict rep = Unavailable ↔ no_response edf_df ∨ no_response rm_df).
Proof.
  intros edf_df rm_df rep Hrun Hedf Hrm. unfold compare_runs in Hrun.
  destruct (analyze edf_df) as [edf|] eqn:He; [|done].
  destruct (analyze rm_df) as [rm|] eqn:Hr; [|done].
  simpl in Hrun. injection Hrun as <-. simpl.
  destruct (analyze_columns _ _ He) as (Hne1 & Hl1 & Hm1 & Hc1 & Hn1).
  destruct (analyze_columns _ _ Hr) as (Hne2 & Hl2 & Hm2 & Hc2 & Hn2).
  assert (Hmiss : ∀ (df : DataFrame) (rows : list (string * Metrics)), rows ≠ [] → length rows ≤ length df →
    (Z.of_nat (length df) < 2 ^ 53)%Z → Forall nonneg (miss_column rows) →
    column_mean (miss_column rows) ≠ NaN).
  { intros df rows Hne Hl Hdf Hall Hnan.
    apply column_mean_NaN in Hnan.
    - destruct rows as [|row rows]; [done|]. unfold miss_column in *.
      rewrite fmap_cons in Hall, Hnan.
      apply Forall_cons in Hall as [Hx _]. apply Forall_cons in Hnan as [Hy _].
      by apply nonneg_not_nan in Hx.
    - eapply Forall_impl; [exact Hall|]. intros x Hx. by right.
    - unfold miss_column. rewrite length_fmap. lia. }
  assert (Hresp : ∀ (df : DataFrame) (rows : list (string * Metrics)), length rows ≤ length df →
    (Z.of_nat (length df) < 2 ^ 53)%Z →
    Forall (λ x, x = NaN ∨ nonneg x) (response_column rows) →
    (Forall (λ x, x = NaN) (response_column rows) ↔ no_response df) →
    (notna (column_mean (response_column rows)) = false ↔ no_response df)).
  { intros df rows Hl Hdf Hall Hiff. rewrite <- Hiff.
    rewrite <- column_mean_NaN; [|done|unfold response_column; rewrite length_fmap; lia].
    unfold notna. rewrite bool_decide_eq_false. split; [|by intros ->; intros []].
    intros H. by destruct (decide (column_mean (response_column rows) = NaN)). }
  split.
  - unfold verdict, notna.
    rewrite !bool_decide_eq_true_2 by (eapply Hmiss; eauto). simpl.
    by destruct (float_ltb _ _).
  - rewrite <- (Hresp edf_df edf), <- (Hresp rm_df rm) by done.
    unfold verdict.
    destruct (notna (column_mean (response_column edf))),
             (notna (column_mean (response_column rm))); simpl;
      try destruct (float_ltb _ _); naive_solver.
Qed.

Lemma X9_comparison_available_witness :
  ∃ rep, compare_runs scenario_mixed scenario_no_response = Ok rep ∧
         miss_verdict rep ≠ Unavailable ∧
         (response_verdict rep = Unavailable ↔
            no_response scenario_mixed ∨ no_response scenario_no_response).
Proof.
  eexists. split; [vm_compute; reflexivity|].
  apply (X9_comparison_available scenario_mixed scenario_no_response);
    vm_compute; reflexivity.
Defined.

(** * Properties of [plot_distribution] *)

Lemma dict_get_set {V} t k (v : V) m dflt :
  dict_get t (dict_set k v m) dflt = if decide (t = k) then v else dict_get t m dflt.
Proof.
  induction m as [|[k' v'] m IH]; simpl.
  - done.
  - destruct (decide (k = k')) as [->|Hk]; simpl.
    + by destruct (decide (t = k')).
    + rewrite IH. destruct (decide (t = k')) as [->|]; [|done].
      by rewrite decide_False.
Qed.

Lemma dict_of_get {V} (f : string → V) keys t dflt :
  dict_get t (dict_of f keys) dflt = if decide (t ∈ keys) then f t else dflt.
Proof.
  unfold dict_of.
  assert (H : ∀ acc, dict_get t (foldl (λ acc t, dict_set t (f t) acc) acc keys) dflt
            = if decide (t ∈ keys) then f t else dict_get t acc dflt).
  { induction keys as [|k keys IH]; intros acc; cbn [foldl].
    - destruct (decide (t ∈ [])) as [Hin|]; [|done]. by apply elem_of_nil in Hin.
    - rewrite IH, dict_get_set. destruct (decide (t ∈ keys)) as [Hin|Hin].
      + rewrite decide_True; [done|]. apply elem_of_cons; auto.
      + destruct (decide (t = k)) as [->|Hne].
        * rewrite decide_True; [done|]. apply elem_of_cons; auto.
        * rewrite decide_False; [done|]. rewrite elem_of_cons. naive_solver. }
  by rewrite H.
Qed.

Lemma dict_of_entries {V} (f : string → V) keys :
  NoDup keys → dict_of f keys = (λ t, (t, f t)) <$> keys.
Proof.
  unfold dict_of. intros Hnd.
  assert (H : ∀ acc : dict V, (∀ t, t ∈ keys → t ∉ dict_keys acc) →
            foldl (λ acc t, dict_set t (f t) acc) acc keys
              = acc ++ ((λ t, (t, f t)) <$> keys)).
  { induction Hnd as [|k keys Hk Hnd IH]; intros acc Hfresh; simpl.
    - by rewrite app_nil_r.
    - rewrite dict_set_fresh by (apply Hfresh, elem_of_cons; auto).
      rewrite IH, <- app_assoc; [done|].
      intros t Ht. rewrite dict_keys_app, elem_of_app. unfold dict_keys at 2. simpl.
      rewrite list_elem_of_singleton. intros [H| ->]; [|done].
      revert H. apply Hfresh, elem_of_cons. auto. }
  rewrite H; [done|]. intros t _. apply not_elem_of_nil.
Qed.

Section Positive_sums.
Local Open Scope Z_scope.

Lemma div_half_even_lower n d : n / d ≤ div_half_even n d.
Proof.
  unfold div_half_even. cbv zeta.
  destruct (2 * (n mod d) <? d); [lia|].
  destruct (d <? 2 * (n mod d)); [lia|].
  destruct (Z.even (n / d)); lia.
Qed.

Lemma nearest_pos n : 1 ≤ n → 1 ≤ nearest n 1.
Proof.
  intros Hn. unfold nearest. cbv zeta. rewrite Z.div_1_r, Z.mul_1_l.
  set (s := Z.max 0 (Z.log2 n - 52)).
  assert (Hs : 0 ≤ s) by lia.
  assert (Hp : 0 < 2 ^ s) by (apply Z.pow_pos_nonneg; lia).
  assert (Hle : 2 ^ s ≤ n).
  { destruct (Z.log2_spec n ltac:(lia)) as [Hlo _].
    destruct (Z.max_spec 0 (Z.log2 n - 52)) as [[_ Hm]|[_ Hm]]; fold s in Hm.
    - etrans; [|exact Hlo]. apply Z.pow_le_mono_r; lia.
    - rewrite Hm. simpl. lia. }
  pose proof (div_half_even_lower n (2 ^ s)) as Hq.
  assert (1 ≤ n / 2 ^ s) by (apply Z.div_le_lower_bound; lia).
  nia.
Qed.

Lemma round_units_pos n :
  0 ≤ n → nonneg (round_units n 1) ∧ (num_pos (PFloat (round_units n 1)) ↔ 0 < n).
Proof.
  intros Hn. split; [by apply round_units_nonneg|].
  unfold round_units. cbv zeta.
  destruct (decide (n = 0)) as [->|Hne].
  { change (nearest (Z.abs 0) 1) with 0. simpl. lia. }
  pose proof (nearest_pos (Z.abs n) ltac:(lia)) as Hk.
  rewrite Z.sgn_pos, Z.mul_1_l by lia.
  destruct (overflow_units <=? _); simpl.
  - destruct (Z.ltb_spec n 0); [lia|]. split; [lia|done].
  - lia.
Qed.

Lemma int_to_float_pos z x :
  0 ≤ z → int_to_float z = Ok x →
  nonneg x ∧ (num_pos (PFloat x) ↔ 0 < z).
Proof.
  intros Hz. unfold int_to_float, of_int. pose proof one_units_pos.
  destruct (round_units_pos (z * one_units) ltac:(nia)) as [H1 H2].
  destruct (round_units _ _) as [k| |]; [|done..]. intros [= <-].
  split; [done|]. rewrite H2. nia.
Qed.

Lemma fadd_pos x y :
  nonneg x → nonneg y →
  nonneg (fadd x y) ∧
  (num_pos (PFloat (fadd x y)) ↔ num_pos (PFloat x) ∨ num_pos (PFloat y)).
Proof.
  intros Hx Hy. split; [by apply fadd_nonneg|].
  destruct x as [a|sa|], y as [b|sb|]; unfold fadd; simpl in *; try done.
  - destruct (round_units_pos (a + b) ltac:(lia)) as [_ ->]. lia.
  - naive_solver.
  - naive_solver.
  - subst. simpl. naive_solver.
Qed.

Lemma num_add_pos a x s :
  num_nonneg a → num_nonneg x → num_add a x = Ok s →
  num_nonneg s ∧ (num_pos s ↔ num_pos a ∨ num_pos x).
Proof.
  destruct a as [a|a], x as [x|x]; simpl; intros Ha Hx.
  - intros [= <-]. simpl. lia.
  - destruct (int_to_float a) as [fa|] eqn:Hfa; [|done]. simpl. intros [= <-].
    destruct (int_to_float_pos _ _ Ha Hfa) as [H1 H2].
    destruct (fadd_pos fa x H1 Hx) as [H3 H4]. split; [done|].
    rewrite H4, H2. done.
  - destruct (int_to_float x) as [fx|] eqn:Hfx; [|done]. simpl. intros [= <-].
    destruct (int_to_float_pos _ _ Hx Hfx) as [H1 H2].
    destruct (fadd_pos a fx Ha H1) as [H3 H4]. split; [done|].
    rewrite H4, H2. done.
  - intros [= <-]. by apply fadd_pos.
Qed.

Lemma foldl_num_add_Raise e l :
  foldl (λ acc x, a ← acc; num_add a x) (Raise e) l = Raise e.
Proof. induction l as [|x l IH]; [done|]. simpl. exact IH. Qed.

Lemma num_sum_pos l s :
  Forall num_nonneg l → num_sum l = Ok s →
  num_nonneg s ∧ (num_pos s ↔ Exists num_pos l).
Proof.
  unfold num_sum. intros Hall.
  assert (H : ∀ a, num_nonneg a →
    foldl (λ acc x, a ← acc; num_add a x) (Ok a) l = Ok s →
    num_nonneg s ∧ (num_pos s ↔ num_pos a ∨ Exists num_pos l)).
  { induction Hall as [|x l Hx _ IH]; intros a Ha; simpl.
    - intros [= <-]. rewrite Exists_nil. naive_solver.
    - destruct (num_add a x) as [b|e] eqn:Hb; [|by rewrite foldl_num_add_Raise].
      destruct (num_add_pos _ _ _ Ha Hx Hb) as [Hb1 Hb2].
      intros Hs. destruct (IH b Hb1 Hs) as [Hs1 Hs2]. split; [done|].
      rewrite Hs2, Hb2, Exists_cons. naive_solver. }
  intros Hs. destruct (H (PInt 0) ltac:(simpl; lia) Hs) as [H1 H2].
  split; [done|]. rewrite H2. simpl. split; [intros [?|?]; [lia|done] | auto].
Qed.

Lemma num_le_zero_pos s : num_nonneg s → num_le_zero s = false ↔ num_pos s.
Proof.
  destruct s as [z|[k|sg|]]; simpl; try done.
  - intros _. rewrite Z.leb_gt. done.
  - intros _. rewrite Z.leb_gt. done.
Qed.

(** The sum of ones never fails. *)
Lemma num_sum_ones {A} (l : list A) :
  ∃ s, num_sum ((λ _, PFloat (Finite one_units)) <$> l) = Ok s.
Proof.
  unfold num_sum. destruct l as [|x l]; [by eexists|].
  rewrite fmap_cons. cbn [foldl]. change (Ok (PInt 0) ≫= _) with
    (fx ← int_to_float 0; Ok (PFloat (fadd fx (Finite one_units)))).
  unfold int_to_float. rewrite of_int_0. simpl.
  generalize (fadd (Finite 0) (Finite one_units)). induction l as [|y l IH]; intros a.
  - by eexists.
  - rewrite fmap_cons. simpl. apply IH.
Qed.

Lemma py_sum_positive (vals : list Z) :
  Forall (λ v, 0 ≤ v) vals → py_sum (filter (λ v, 0 < v) vals) = py_sum vals.
Proof.
  rewrite !py_sum_foldr. induction 1 as [|v l Hv _ IH]; [done|].
  rewrite filter_cons. destruct (decide (0 < v)); simpl; lia.
Qed.

Lemma cpu_time_nonneg em t : 0 ≤ cpu_time em t.
Proof.
  unfold cpu_time. rewrite py_sum_foldr.
  induction (dict_get t em []) as [|v l IH]; [done|].
  rewrite filter_cons. destruct (decide (0 < v)); simpl; lia.
Qed.

Lemma cpu_time_pos em t : 0 < cpu_time em t ↔ Exists (λ v, 0 < v) (dict_get t em []).
Proof.
  unfold cpu_time. rewrite py_sum_foldr.
  induction (dict_get t em []) as [|v l IH]; simpl.
  - rewrite Exists_nil. lia.
  - rewrite filter_cons, Exists_cons.
    assert (H0 : 0 ≤ foldr Z.add 0 (filter (λ v, 0 < v) l)).
    { clear. induction l as [|x l IH]; [done|]. rewrite filter_cons.
      destruct (decide (0 < x)); simpl; lia. }
    destruct (decide (0 < v)); simpl; [|rewrite IH; naive_solver].
    split; [auto|lia].
Qed.

End Positive_sums.

Lemma wedge_nonneg em t : num_nonneg (wedge em t).
Proof.
  unfold wedge, wedge_of. destruct (Z.ltb_spec 0 (cpu_time em t)); simpl; lia.
Qed.

Lemma wedge_pos em t : num_pos (wedge em t) ↔ (0 < cpu_time em t)%Z.
Proof.
  unfold wedge, wedge_of. destruct (Z.ltb_spec 0 (cpu_time em t)); simpl; lia.
Qed.

(** The wedges before the fallback. *)
Lemma sizes_wedges em :
  (λ t, max_zero (dict_get t
          (dict_of (λ t, PInt (py_sum (filter (λ v, (0 < v)%Z) (dict_get t em []))))
                   (dict_keys em)) (PFloat (Finite 0)))) <$> dict_keys em
  = wedge em <$> dict_keys em.
Proof.
  apply Forall_fmap_ext, Forall_forall. intros t Ht.
  rewrite dict_of_get, decide_True by done.
  unfold max_zero, wedge, wedge_of, cpu_time. done.
Qed.

Lemma execs_nonneg df t :
  Forall (λ v, (0 ≤ v)%Z) (dict_get t (exec_map (build_task_execution_lists df)) []).
Proof.
  rewrite get_exec_map. destruct (decide (t ∈ task_names df)); [|done].
  destruct (execs_of_first_fit df t) as (m & Hm & ->).
  by eapply first_fit_nonneg.
Qed.

Lemma filter_all {A} (P : A → Prop) `{∀ x, Decision (P x)} (l : list A) :
  Forall P l → filter P l = l.
Proof.
  induction 1 as [|x l Hx _ IH]; [done|].
  rewrite filter_cons, decide_True by done. by rewrite IH.
Qed.

Lemma Forall2_fmap_eq {A B C} (R : A → B → Prop) (f : A → C) (g : B → C) l k :
  Forall2 R l k → (∀ a b, R a b → f a = g b) → f <$> l = g <$> k.
Proof.
  intros HR Hfg. induction HR as [|a b l k Hab _ IH]; [done|].
  rewrite !fmap_cons. f_equal; [by apply Hfg|done].
Qed.

Lemma Forall2_imap_eq {A B C} (R : A → B → Prop) l k :
  Forall2 R l k → ∀ (f : nat → A → C) (g : nat → B → C),
  (∀ i a b, R a b → f i a = g i b) → imap f l = imap g k.
Proof.
  induction 1 as [|a b l k Hab _ IH]; intros f g Hfg; [done|].
  simpl. f_equal; [by apply Hfg|]. apply IH. intros i a' b' H'. by apply Hfg.
Qed.

Lemma imap_indices {A B} (f : nat → A → nat * B) (l : list A) :
  (∀ i a, (f i a).1 = i) → ∀ n, (imap (λ i, f (n + i)) l).*1 = seq n (length l).
Proof.
  intros Hf. induction l as [|a l IH]; intros n; [done|].
  simpl. rewrite Hf, Nat.add_0_r. f_equal.
  rewrite <- (IH (S n)). f_equal. apply imap_ext. intros i x _. simpl.
  f_equal. lia.
Qed.

Lemma plot_pie em lm plots :
  plot_distribution em lm = Ok plots →
  pie_labels plots = dict_keys em ∧
  num_sum (pie_sizes plots) = Ok (pie_total plots) ∧
  ((num_pos (pie_total plots) ∧
    pie_sizes plots = wedge em <$> dict_keys em ∧
    ∃ t, t ∈ dict_keys em ∧ (0 < cpu_time em t)%Z) ∨
   (pie_sizes plots = (λ _, PFloat (Finite one_units)) <$> dict_keys em ∧
    ∀ t, t ∈ dict_keys em → cpu_time em t = 0%Z)).
Proof.
  unfold plot_distribution. cbv zeta. rewrite sizes_wedges.
  assert (Hnn : Forall num_nonneg (wedge em <$> dict_keys em)).
  { apply Forall_fmap, Forall_forall. intros t _. apply wedge_nonneg. }
  assert (Hex : Exists num_pos (wedge em <$> dict_keys em)
                ↔ ∃ t, t ∈ dict_keys em ∧ (0 < cpu_time em t)%Z).
  { rewrite Exists_fmap, Exists_exists. by setoid_rewrite <- wedge_pos. }
  destruct (num_sum (wedge em <$> dict_keys em)) as [s|] eqn:Hs; [|done]. simpl.
  destruct (num_sum_pos _ _ Hnn Hs) as [Hs1 Hs2].
  pose proof (num_le_zero_pos s Hs1) as Hle.
  destruct (num_le_zero s).
  - rewrite <- list_fmap_compose.
    destruct (num_sum_ones (dict_keys em)) as [s1 Hs1']. unfold compose.
    rewrite Hs1'. simpl. intros [= <-]. simpl.
    split_and!; [done..|]. right. split; [done|].
    intros t Ht. pose proof (cpu_time_nonneg em t) as H0.
    destruct (decide (0 < cpu_time em t)%Z) as [Hlt|]; [|lia].
    assert (Hp : num_pos s) by (apply Hs2, Hex; eauto).
    by apply Hle in Hp.
  - intros [= <-]. simpl.
    assert (Hpos : num_pos s) by (by apply Hle).
    split_and!; [done..|]. left. split_and!; [done..|]. by apply Hex, Hs2.
Qed.

Lemma plot_rest em lm plots :
  plot_distribution em lm = Ok plots →
  release_bars plots = dict_of (λ t, length (dict_get t lm [])) (dict_keys em) ∧
  histograms plots = histogram_grid em (dict_keys em).
Proof.
  unfold plot_distribution. cbv zeta. rewrite sizes_wedges.
  destruct (num_sum (wedge em <$> dict_keys em)) as [s|]; simpl; [|done].
  destruct (num_le_zero s).
  - destruct (num_sum _) as [s1|]; simpl; [|done]. by intros [= <-].
  - by intros [= <-].
Qed.

Lemma imap_values {A B} (g : A → B) (l : list A) :
  (imap (λ i a, (i, g a)) l).*2 = g <$> l.
Proof.
  assert (H : ∀ n, (imap (λ i a, (n + i, g a)) l).*2 = g <$> l).
  { induction l as [|a l IH]; intros n; [done|]. simpl. f_equal.
    etrans; [|exact (IH (S n))]. f_equal. apply imap_ext. intros i x _. simpl.
    f_equal. lia. }
  apply (H 0).
Qed.

Lemma half_up n : n ≤ 2 * ((n + 1) `div` 2) ≤ n + 1.
Proof.
  pose proof (Nat.div_mod_eq (n + 1) 2) as Hdm.
  pose proof (Nat.mod_upper_bound (n + 1) 2 ltac:(done)) as Hm.
  lia.
Qed.

Lemma histogram_grid_panels em tasks grid :
  histogram_grid em tasks = Some grid →
  tasks ≠ [] ∧
  grid_rows grid = (length tasks + 1) `div` 2 ∧
  (panels grid).*1 = seq 0 (length tasks) ∧
  (panels grid).*2
    = (λ t, (t, panel_of (filter (λ v, (0 ≤ v)%Z) (dict_get t em [])))) <$> tasks ∧
  deleted_axes grid = seq (length tasks) (2 * grid_rows grid - length tasks).
Proof.
  unfold histogram_grid. cbv zeta. case_bool_decide as Hn; [done|].
  intros [= <-]. cbn [grid_rows panels deleted_axes]. split_and!.
  - by intros ->.
  - by replace (length tasks + 2 - 1) with (length tasks + 1) by lia.
  - apply (imap_indices (λ i t, (i, (t, _))) tasks (λ _ _, eq_refl) 0).
  - rewrite (imap_values (λ t, (t, _)) tasks).
    apply list_fmap_ext. intros i t _. f_equal.
  - rewrite length_imap. f_equal. lia.
Qed.

(** X10. Whatever the two maps, when [plot_distribution] gets to draw its
    pie the wedges are labelled by the keys of the executions map, none
    is negative, they add up to the total the percentages are printed
    against, and that total is above zero as soon as there is a task.
    If some task has a positive execution sample the wedge of a task is
    the sum of its positive samples ([0.0] for a task with none);
    otherwise every task gets the same wedge [1.0]. *)
Theorem X10_pie_wedges : ∀ em lm plots,
  plot_distribution em lm = Ok plots →
  pie_labels plots = dict_keys em ∧
  Forall num_nonneg (pie_sizes plots) ∧
  num_sum (pie_sizes plots) = Ok (pie_total plots) ∧
  (em ≠ [] → num_pos (pie_total plots)) ∧
  ((∃ t, t ∈ dict_keys em ∧ (0 < cpu_time em t)%Z) →
     pie_sizes plots = wedge em <$> dict_keys em) ∧
  ((∀ t, t ∈ dict_keys em → cpu_time em t = 0%Z) →
     pie_sizes plots = (λ _, PFloat (Finite one_units)) <$> dict_keys em).
Proof.
  intros em lm plots Hplots.
  destruct (plot_pie _ _ _ Hplots) as (Hlabels & Hsum & Hcases).
  split; [done|].
  assert (Hones : Forall num_nonneg ((λ _, PFloat (Finite one_units)) <$> dict_keys em)).
  { apply Forall_fmap, Forall_forall. intros t _. simpl. pose proof one_units_pos. lia. }
  destruct Hcases as [(Hpos & Hsizes & t & Ht & Hlt)|(Hsizes & Hzero)].
  - split_and!; try done.
    + rewrite Hsizes. apply Forall_fmap, Forall_forall. intros t' _. apply wedge_nonneg.
    + intros Hall. rewrite (Hall t Ht) in Hlt. lia.
  - rewrite Hsizes in Hsum |- *. split_and!; try done.
    + intros Hne. apply (num_sum_pos _ _ Hones Hsum).
      destruct em as [|[k v] em]; [done|].
      unfold dict_keys. rewrite !fmap_cons. apply Exists_cons_hd. simpl.
      apply one_units_pos.
    + intros (t & Ht & Hlt). rewrite (Hzero t Ht) in Hlt. lia.
Qed.

Lemma X10_pie_wedges_witness :
  let em := [("T1", [30; 0]%Z); ("T2", [0]%Z); ("T3", [])] in
  ∃ plots, plot_distribution em [] = Ok plots ∧
    pie_labels plots = dict_keys em ∧
    Forall num_nonneg (pie_sizes plots) ∧
    num_sum (pie_sizes plots) = Ok (pie_total plots) ∧
    (em ≠ [] → num_pos (pie_total plots)) ∧
    ((∃ t, t ∈ dict_keys em ∧ (0 < cpu_time em t)%Z) →
       pie_sizes plots = wedge em <$> dict_keys em) ∧
    ((∀ t, t ∈ dict_keys em → cpu_time em t = 0%Z) →
       pie_sizes plots = (λ _, PFloat (Finite one_units)) <$> dict_keys em).
Proof.
  cbv zeta. eexists. split; [vm_compute; reflexivity|].
  apply (X10_pie_wedges [("T1", [30; 0]%Z); ("T2", [0]%Z); ("T3", [])] []).
  vm_compute. reflexivity.
Defined.

(** X11. The three figures of [plot_distribution] on the maps of a frame
    agree with the summary of that frame, row by row: the pie is
    labelled by the tasks of the summary and, when some task has a
    positive total, the wedge of a task is its [total_exec_time_ms]
    ([0.0] for a total of zero); the bars are the [release_count]s; and
    the grid has one panel per task, a histogram of all the execution
    samples of the task (the filters of the function drop none) or "No
    samples" when the task has none. *)
Theorem X11_plots_match_summary : ∀ df rows plots,
  analyze df = Ok rows →
  plot_distribution (exec_map (build_task_execution_lists df))
                    (releases_map (build_task_execution_lists df)) = Ok plots →
  pie_labels plots = rows.*1 ∧
  release_bars plots = (λ row, (row.1, release_count row.2)) <$> rows ∧
  (Exists (λ row, (0 < total_exec_time_ms row.2)%Z) rows →
     pie_sizes plots = (λ row, wedge_of (total_exec_time_ms row.2)) <$> rows) ∧
  ∃ grid, histograms plots = Some grid ∧
    (panels grid).*2
      = (λ row, (row.1, panel_of (dict_get row.1
                   (exec_map (build_task_execution_lists df)) []))) <$> rows.
Proof.
  intros df rows plots Hrows Hplots.
  set (lists := build_task_execution_lists df) in *.
  destruct (plot_pie _ _ _ Hplots) as (Hlabels & _ & Hcases).
  assert (Hsizes : (∃ t, t ∈ dict_keys (exec_map lists)
                         ∧ (0 < cpu_time (exec_map lists) t)%Z) →
                   pie_sizes plots = wedge (exec_map lists) <$> dict_keys (exec_map lists)).
  { intros (t & Ht & Hlt). destruct Hcases as [(_ & H & _)|(_ & Hzero)]; [done|].
    rewrite (Hzero t Ht) in Hlt. lia. }
  clear Hcases.
  destruct (plot_rest _ _ _ Hplots) as (Hbars & Hgrid).
  assert (Hkeys : dict_keys (exec_map lists) = task_names df).
  { unfold lists. destruct (build_maps df) as (-> & _). apply dict_keys_entries. }
  pose proof Hrows as HF. unfold analyze in HF. apply analyze_from_lists_rows in HF.
  fold lists in HF.
  assert (Hcpu : ∀ t, cpu_time (exec_map lists) t = py_sum (dict_get t (exec_map lists) [])).
  { intros t. unfold cpu_time. apply py_sum_positive, execs_nonneg. }
  split_and!.
  - rewrite Hlabels, <- (list_fmap_id (dict_keys (exec_map lists))).
    eapply Forall2_fmap_eq; [exact HF|]. intros t row Hrow. simpl.
    by destruct (summarize_Ok _ _ _ _ _ _ Hrow) as [-> _].
  - rewrite Hbars, dict_of_entries by (rewrite Hkeys; apply task_names_NoDup).
    eapply Forall2_fmap_eq; [exact HF|]. intros t row Hrow. simpl.
    destruct (summarize_Ok _ _ _ _ _ _ Hrow) as (-> & _ & _ & _ & _ & Hc).
    simpl in Hc. by rewrite Hc.
  - intros Hex. rewrite Hsizes.
    + eapply Forall2_fmap_eq; [exact HF|]. intros t row Hrow. simpl.
      destruct (summarize_Ok _ _ _ _ _ _ Hrow) as (_ & _ & _ & _ & Ht & _).
      unfold wedge. by rewrite Hcpu, Ht.
    + apply Exists_exists in Hex as (row & Hin & Hpos).
      destruct (analyze_from_lists_row _ _ _ _ _ _ Hrows Hin) as [Hk Hsum].
      fold lists in Hk, Hsum.
      destruct (summarize_Ok _ _ _ _ _ _ Hsum) as (_ & _ & _ & _ & Ht & _).
      exists row.1. split; [done|]. by rewrite Hcpu, <- Ht.
  - destruct (histogram_grid (exec_map lists) (dict_keys (exec_map lists)))
      as [grid|] eqn:Hg.
    + exists grid. split; [done|].
      destruct (histogram_grid_panels _ _ _ Hg) as (_ & _ & _ & -> & _).
      eapply Forall2_fmap_eq; [exact HF|]. intros t row Hrow. simpl.
      destruct (summarize_Ok _ _ _ _ _ _ Hrow) as (-> & _).
      by rewrite filter_all by apply execs_nonneg.
    + exfalso. unfold histogram_grid in Hg. cbv zeta in Hg.
      case_bool_decide as Hn; [|done]. apply length_zero_iff_nil in Hn.
      rewrite Hkeys in Hn. apply analyze_no_task in Hn. by rewrite Hrows in Hn.
Qed.

Lemma X11_plots_match_summary_witness :
  let df := scenario_idle_task in
  ∃ rows plots,
    analyze df = Ok rows ∧
    plot_distribution (exec_map (build_task_execution_lists df))
                      (releases_map (build_task_execution_lists df)) = Ok plots ∧
    pie_labels plots = rows.*1 ∧
    release_bars plots = (λ row, (row.1, release_count row.2)) <$> rows ∧
    (Exists (λ row, (0 < total_exec_time_ms row.2)%Z) rows →
       pie_sizes plots = (λ row, wedge_of (total_exec_time_ms row.2)) <$> rows) ∧
    ∃ grid, histograms plots = Some grid ∧
      (panels grid).*2
        = (λ row, (row.1, panel_of (dict_get row.1
                     (exec_map (build_task_execution_lists df)) []))) <$> rows.
Proof.
  cbv zeta. eexists. eexists.
  split; [vm_compute; reflexivity|]. split; [vm_compute; reflexivity|].
  apply (X11_plots_match_summary scenario_idle_task); vm_compute; reflexivity.
Defined.

(** X12. Whatever the two maps, [plot_distribution] skips the grid of
    histograms only when the executions map has no key.  Otherwise the
    grid has one panel per key, in key order, on the axes [0], [1], ...
    in turn; these axes and the deleted ones are exactly the axes of the
    grid, each once (so the index of a panel is never out of range and
    no empty axis is left in the figure), at most one axis is deleted,
    and a histogram is only drawn from a non-empty list of samples, none
    of them negative. *)
Theorem X12_histogram_grid : ∀ em lm plots,
  plot_distribution em lm = Ok plots →
  match histograms plots with
  | None => em = []
  | Some grid =>
      em ≠ [] ∧
      (panels grid).*2.*1 = dict_keys em ∧
      (panels grid).*1 ++ deleted_axes grid = seq 0 (2 * grid_rows grid) ∧
      length (deleted_axes grid) ≤ 1 ∧
      Forall (λ p, panel_ok p.2.2) (panels grid)
  end.
Proof.
  intros em lm plots Hplots. destruct (plot_rest _ _ _ Hplots) as (_ & ->).
  destruct (histogram_grid em (dict_keys em)) as [grid|] eqn:Hg.
  - destruct (histogram_grid_panels _ _ _ Hg) as (Hne & Hrows & Hidx & Hval & Hdel).
    split_and!.
    + intros ->. done.
    + rewrite Hval, <- list_fmap_compose. apply list_fmap_id.
    + rewrite Hidx, Hdel, Hrows.
      destruct (half_up (length (dict_keys em))) as [Hlo _].
      rewrite <- seq_app. f_equal. lia.
    + rewrite Hdel, length_seq, Hrows.
      destruct (half_up (length (dict_keys em))) as [_ Hhi]. lia.
    + assert (H2 : Forall (λ q : string * Panel, panel_ok q.2) (panels grid).*2).
      { rewrite Hval. apply Forall_fmap, Forall_forall. intros t _. simpl.
        unfold panel_of.
        destruct (filter _ _) as [|v data] eqn:Hf; [done|]. simpl.
        split; [done|]. rewrite <- Hf. apply Forall_forall.
        intros x Hx. by apply list_elem_of_filter in Hx as [Hx _]. }
      rewrite Forall_fmap in H2. exact H2.
  - unfold histogram_grid in Hg. cbv zeta in Hg. case_bool_decide as Hn; [|done].
    apply length_zero_iff_nil in Hn. by destruct em.
Qed.

Lemma X12_histogram_grid_witness :
  let em := [("T1", [30; 0]%Z); ("T2", [0]%Z); ("T3", [])] in
  ∃ plots, plot_distribution em [] = Ok plots ∧
    match histograms plots with
    | None => em = []
    | Some grid =>
        em ≠ [] ∧
        (panels grid).*2.*1 = dict_keys em ∧
        (panels grid).*1 ++ deleted_axes grid = seq 0 (2 * grid_rows grid) ∧
        length (deleted_axes grid) ≤ 1 ∧
        Forall (λ p, panel_ok p.2.2) (panels grid)
    end.
Proof.
  cbv zeta. eexists. split; [vm_compute; reflexivity|].
  apply (X12_histogram_grid [("T1", [30; 0]%Z); ("T2", [0]%Z); ("T3", [])] []).
  vm_compute. reflexivity.
Defined.
